(** * Amount entry of the transfer form: keystroke guard and max amount

    A shallow embedding of [app2/src/lib/transfer/shared/components/Amount.svelte]:
    the [onbeforeinput] handler that vetoes edits of the amount field, the
    [displayBalance] derivation and the [setMaxAmount] action.

    JavaScript strings are modelled as lists of characters, one [ascii] per
    code unit (every function below tells apart only the digits, the two
    separators, the minus sign and the letters of the literals it compares
    with; any other character stands for any other code unit); bigints as
    [Z]; Effect's [Option] and nullable values as [option]. *)

From Stdlib Require Import List Ascii ZArith NArith Bool Arith Lia.
From Stdlib Require String.
Import ListNotations.
Import String.StringSyntax.
Delimit Scope string_scope with string.
Bind Scope string_scope with String.string.

(** ** JavaScript strings *)

Module JsString.

Definition t := list ascii.

(** String literals of the source. *)
Definition js (s : String.string) : t := String.list_ascii_of_string s.

(** [a === b] *)
Fixpoint eqb (a b : t) : bool :=
  match a, b with
  | [], [] => true
  | x :: a', y :: b' => Ascii.eqb x y && eqb a' b'
  | _, _ => false
  end.

(** [s.startsWith(p)] *)
Fixpoint startsWith (p s : t) : bool :=
  match p, s with
  | [], _ => true
  | _ :: _, [] => false
  | a :: p', b :: s' => Ascii.eqb a b && startsWith p' s'
  end.

(** [s.includes(p)] *)
Fixpoint includes (p s : t) : bool :=
  startsWith p s ||
  match s with
  | [] => false
  | _ :: s' => includes p s'
  end.

(** [s.split(sep)] for a separator of one character, the only way the
    component calls it. *)
Fixpoint split (sep : ascii) (s : t) : list t :=
  match s with
  | [] => [[]]
  | c :: s' =>
      if Ascii.eqb c sep then [] :: split sep s'
      else match split sep s' with
           | [] => [[c]]
           | piece :: rest => (c :: piece) :: rest
           end
  end.

(** [s.padStart(n, "0")] and [s.padEnd(n, "0")] *)
Definition padStart (n : nat) (c : ascii) (s : t) : t :=
  repeat c (n - length s) ++ s.

Definition padEnd (n : nat) (c : ascii) (s : t) : t :=
  s ++ repeat c (n - length s).

(** [s.slice(i, j)] and [s.slice(i)] for indices within [0, length]. *)
Definition slice (i j : nat) (s : t) : t := firstn (j - i) (skipn i s).
Definition sliceFrom (i : nat) (s : t) : t := skipn i s.

End JsString.

Import JsString.

(** ** Regular expressions

    The fragment of the JavaScript syntax the component uses: character
    classes, concatenation, alternation, [?] and [*].  [test] decides a
    pattern anchored with [^] and [$] (no flags) by derivatives. *)

Module Regex.

Inductive regex : Type :=
| Void : regex
| Eps : regex
| Class : (ascii -> bool) -> regex
| Cat : regex -> regex -> regex
| Alt : regex -> regex -> regex
| Star : regex -> regex.

Definition Opt (r : regex) : regex := Alt r Eps.

Fixpoint nullable (r : regex) : bool :=
  match r with
  | Void => false
  | Eps => true
  | Class _ => false
  | Cat r1 r2 => nullable r1 && nullable r2
  | Alt r1 r2 => nullable r1 || nullable r2
  | Star _ => true
  end.

Fixpoint deriv (c : ascii) (r : regex) : regex :=
  match r with
  | Void => Void
  | Eps => Void
  | Class p => if p c then Eps else Void
  | Cat r1 r2 =>
      if nullable r1 then Alt (Cat (deriv c r1) r2) (deriv c r2)
      else Cat (deriv c r1) r2
  | Alt r1 r2 => Alt (deriv c r1) (deriv c r2)
  | Star r1 => Cat (deriv c r1) (Star r1)
  end.

(** [/^r$/.test(s)] *)
Fixpoint test (r : regex) (s : JsString.t) : bool :=
  match s with
  | [] => nullable r
  | c :: s' => test (deriv c r) s'
  end.

(** The words of a pattern. *)
Inductive Matches : regex -> JsString.t -> Prop :=
| MEps : Matches Eps []
| MClass (p : ascii -> bool) c : p c = true -> Matches (Class p) [c]
| MCat r1 r2 s1 s2 :
    Matches r1 s1 -> Matches r2 s2 -> Matches (Cat r1 r2) (s1 ++ s2)
| MAltL r1 r2 s : Matches r1 s -> Matches (Alt r1 r2) s
| MAltR r1 r2 s : Matches r2 s -> Matches (Alt r1 r2) s
| MStarNil r : Matches (Star r) []
| MStarApp r s1 s2 :
    Matches r s1 -> Matches (Star r) s2 -> Matches (Star r) (s1 ++ s2).

(** [\d] and [[.,]] *)
Definition isDigit (c : ascii) : bool :=
  (48 <=? N_of_ascii c)%N && (N_of_ascii c <=? 57)%N.

Definition isSeparator (c : ascii) : bool :=
  Ascii.eqb c "."%char || Ascii.eqb c ","%char.

(** [\d*[.,]?\d*] *)
Definition amountShape : regex :=
  Cat (Star (Class isDigit)) (Cat (Opt (Class isSeparator)) (Star (Class isDigit))).

End Regex.

Import Regex.

(** ** Effect's [Option] helpers used by the component *)

Module Option.

Definition flatMap {A B} (f : A -> option B) (o : option A) : option B :=
  match o with Some a => f a | None => None end.

Definition getOrElse {A} (d : A) (o : option A) : A :=
  match o with Some a => a | None => d end.

(** A nullable value is an [option] already. *)
Definition fromNullable {A} (o : option A) : option A := o.

End Option.

(** ** The data the component reads *)

Record Representation : Type := { decimals : option nat }.

Record Token : Type := {
  denom : JsString.t;
  representations : list Representation
}.

Record Chain : Type := { universal_chain_id : JsString.t }.

Record TokenBalance : Type := { balance : option Z }.

(** [x.representations[0]?.decimals]: undefined when there is no first
    representation or when it carries no [decimals]. *)
Definition firstDecimals (x : Token) : option nat :=
  match representations x with
  | [] => None
  | r :: _ => decimals r
  end.

(** [baseToken.representations[0]?.decimals ?? 0] (lines 54 and 78) *)
Definition tokenDecimals (baseToken : Token) : nat :=
  match firstDecimals baseToken with
  | Some d => d
  | None => 0
  end.

(** ** The keystroke guard, [onbeforeinput] *)

Record InputEvent : Type := {
  inputType : JsString.t;
  data : option JsString.t;
  value : JsString.t        (* [currentTarget.value] *)
}.

(** [value + (data ?? "")] *)
Definition proposed (event : InputEvent) : JsString.t :=
  value event ++ match data event with Some d => d | None => [] end.

(** The [pipe] of lines 139-143. *)
Definition maxDecimalsOf (baseToken : option Token) : nat :=
  Option.getOrElse 0
    (Option.flatMap (fun x => Option.fromNullable (firstDecimals x)) baseToken).

Definition validShape (p : JsString.t) : bool := test amountShape p.

(** [p.split(sep)[1].length]; reading [length] of an absent element throws
    a TypeError, which is [None] here. *)
Definition secondPieceLength (sep : ascii) (p : JsString.t) : option nat :=
  option_map (@length ascii) (nth_error (split sep p) 1).

(** [!p.includes(sep) || p.split(sep)[1].length <= maxDecimals] *)
Definition validDecimalsFor (sep : ascii) (p : JsString.t) (maxDecimals : nat)
  : option bool :=
  if negb (includes [sep] p) then Some true
  else option_map (fun n => n <=? maxDecimals) (secondPieceLength sep p).

Definition validDecimalsDot (p : JsString.t) (maxDecimals : nat) : option bool :=
  validDecimalsFor "."%char p maxDecimals.

Definition validDecimalsComma (p : JsString.t) (maxDecimals : nat) : option bool :=
  validDecimalsFor ","%char p maxDecimals.

Definition isDelete (event : InputEvent) : bool :=
  startsWith (js "delete") (inputType event).

Definition noDuplicateLeadingZeroes (p : JsString.t) : bool :=
  negb (startsWith (js "00") p).

(** The constant [allow] of the handler; [None] when the handler throws. *)
Definition allow (maxDecimals : nat) (event : InputEvent) : option bool :=
  let p := proposed event in
  let validShape := validShape p in
  match validDecimalsDot p maxDecimals with
  | None => None
  | Some validDecimalsDot =>
      match validDecimalsComma p maxDecimals with
      | None => None
      | Some validDecimalsComma =>
          let validDecimals := validDecimalsComma && validDecimalsDot in
          Some (isDelete event
                || (validDecimals && validShape && noDuplicateLeadingZeroes p))
      end
  end.

(** The handler: the result says whether [event.preventDefault()] ran. *)
Definition onbeforeinput (baseToken : option Token) (event : InputEvent)
  : option bool :=
  option_map negb (allow (maxDecimalsOf baseToken) event).

(** ** The guard as the specification words it *)

(** The part of a text after the first occurrence of [sep], when there is
    one. *)
Fixpoint afterFirst (sep : ascii) (p : JsString.t) : option JsString.t :=
  match p with
  | [] => None
  | c :: p' => if Ascii.eqb c sep then Some p' else afterFirst sep p'
  end.

(** The precision rule in one boolean: the text after the first [sep], if
    any, is at most [maxDecimals] long. *)
Definition precisionOk (sep : ascii) (maxDecimals : nat) (p : JsString.t) : bool :=
  match afterFirst sep p with
  | Some fraction => length fraction <=? maxDecimals
  | None => true
  end.

(** Rules 3 and 4 of section 4.1. *)
Definition withinPrecision (sep : ascii) (maxDecimals : nat) (p : JsString.t) : Prop :=
  forall fraction, afterFirst sep p = Some fraction -> length fraction <= maxDecimals.

(** Rule 7 of section 4.1: a deletion, or rules 2, 3, 4 and 6 together. *)
Definition specAccepts (maxDecimals : nat) (event : InputEvent) : Prop :=
  isDelete event = true
  \/ (Matches amountShape (proposed event)
      /\ withinPrecision "."%char maxDecimals (proposed event)
      /\ withinPrecision ","%char maxDecimals (proposed event)
      /\ startsWith (js "00") (proposed event) = false).

(** Number of fractional separators in a text. *)
Definition separatorCount (p : JsString.t) : nat :=
  length (filter isSeparator p).

(** What the specification promises of an accepted text at precision
    [maxDecimals]. *)
Definition wellFormedAmount (maxDecimals : nat) (p : JsString.t) : Prop :=
  Matches amountShape p
  /\ separatorCount p <= 1
  /\ withinPrecision "."%char maxDecimals p
  /\ withinPrecision ","%char maxDecimals p
  /\ startsWith (js "00") p = false.

(** ** Bigints and their decimal text *)

Module BigInt.

Definition digitChar (d : N) : ascii := ascii_of_N (48 + d).

Definition digitValue (c : ascii) : N := N_of_ascii c - 48.

(** Decimal digits of a natural number, most significant first; [fuel]
    bounds the number of digits after the first. *)
Fixpoint digitsOf (fuel : nat) (n : N) (acc : JsString.t) : JsString.t :=
  let acc' := digitChar (n mod 10) :: acc in
  match fuel with
  | O => acc'
  | S fuel' => if (n / 10 =? 0)%N then acc' else digitsOf fuel' (n / 10) acc'
  end.

Definition natToString (n : N) : JsString.t :=
  digitsOf (N.to_nat (N.size n)) n [].

(** [value.toString()] *)
Definition toString (value : Z) : JsString.t :=
  if (value <? 0)%Z then "-"%char :: natToString (Z.to_N (- value))
  else natToString (Z.to_N value).

(** The number a text of decimal digits denotes; the empty text is 0, as
    with [BigInt("")]. *)
Definition parseDigits (s : JsString.t) : N :=
  fold_left (fun acc c => 10 * acc + digitValue c)%N s 0%N.

End BigInt.

Definition allDigits (s : JsString.t) : bool := forallb isDigit s.

(** [s.replace(/(0+)$/, "")]: the text without its trailing zeros. *)
Fixpoint trimTrailingZeros (s : JsString.t) : JsString.t :=
  match s with
  | [] => []
  | c :: s' =>
      match trimTrailingZeros s' with
      | [] => if Ascii.eqb c "0"%char then [] else [c]
      | rest => c :: rest
      end
  end.

(** Modelled from the spec: [formatUnits] is imported from the viem package
    and its body is not among the sources.  Section 4.2 step 2 describes it:
    the integer in base units becomes a decimal text by shifting the decimal
    point left by [decimals] places, padding with zeros on the left and
    trimming trailing fractional zeros, with no rounding.  The definition
    follows the package's steps. *)
Definition formatUnits (value : Z) (decimals : nat) : JsString.t :=
  let display := BigInt.toString value in
  let negative := startsWith (js "-") display in
  let display := if negative then sliceFrom 1 display else display in
  let display := padStart decimals "0"%char display in
  let integer := slice 0 (length display - decimals) display in
  let fraction := sliceFrom (length display - decimals) display in
  let fraction := trimTrailingZeros fraction in
  (if negative then js "-" else [])
  ++ (match integer with [] => js "0" | _ => integer end)
  ++ (match fraction with [] => [] | _ => js "." ++ fraction end).

(** Cuts a text at its first fractional separator. *)
Fixpoint cutAtSeparator (s : JsString.t) : JsString.t * option JsString.t :=
  match s with
  | [] => ([], None)
  | c :: s' =>
      if isSeparator c then ([], Some s')
      else let (integer, fraction) := cutAtSeparator s' in (c :: integer, fraction)
  end.

(** Modelled from the spec: the conversion of a DisplayAmount back to base
    units is not among the sources (the component only formats).  Sections 3
    and 4.2 call it the base-unit interpretation at the same
    DecimalPrecision: the integer part followed by the fractional part
    padded on the right to [decimals] digits, read as one integer.  No
    rounding: a text with more than [decimals] fractional digits, or one
    that is not a non-negative decimal, has no interpretation. *)
Definition toBaseUnits (s : JsString.t) (decimals : nat) : option Z :=
  let (integer, rest) := cutAtSeparator s in
  let fraction := match rest with Some f => f | None => [] end in
  if allDigits integer && allDigits fraction && (length fraction <=? decimals)
  then Some (Z.of_N (BigInt.parseDigits (integer ++ padEnd decimals "0"%char fraction)))
  else None.

(** ** The max-amount action, [setMaxAmount] *)

Definition hexDigit (n : N) : ascii :=
  if (n <? 10)%N then ascii_of_N (48 + n) else ascii_of_N (87 + n).

(** viem's [toHex] on a text of one-byte characters: ["0x"] and two
    hexadecimal digits per character. *)
Definition toHex (s : JsString.t) : JsString.t :=
  js "0x"
  ++ flat_map (fun c => [hexDigit (N_of_ascii c / 16); hexDigit (N_of_ascii c mod 16)]) s.

(** [20n * 10n ** BigInt(decimals)] *)
Definition BABY_SUB_AMOUNT (decimals : nat) : Z := 20 * 10 ^ Z.of_nat decimals.

(** [isUbbn && rawBalance > BABY_SUB_AMOUNT ? rawBalance - BABY_SUB_AMOUNT : rawBalance],
    as a function of the three names it reads. *)
Definition maxUsable (isUbbn : bool) (rawBalance reserve : Z) : Z :=
  if isUbbn && (rawBalance >? reserve)%Z then (rawBalance - reserve)%Z
  else rawBalance.

(** [formatUnits(maxUsable, decimals)]: the specification's [computeMax]. *)
Definition computeMax (rawBalance : Z) (decimals : nat) (isNativeReserved : bool)
    (reserve : Z) : JsString.t :=
  formatUnits (maxUsable isNativeReserved rawBalance reserve) decimals.

(** Converting the output of [computeMax] back to base units at the same
    precision and computing the maximum of that value. *)
Definition recomputeMax (rawBalance : Z) (decimals : nat) (isNativeReserved : bool)
    (reserve : Z) : option JsString.t :=
  option_map (fun units => computeMax units decimals isNativeReserved reserve)
    (toBaseUnits (computeMax rawBalance decimals isNativeReserved reserve) decimals).

Definition isUbbn (chain : Chain) (baseToken : Token) : bool :=
  JsString.eqb (universal_chain_id chain) (js "babylon.bbn-1")
  && JsString.eqb (denom baseToken) (toHex (js "ubbn")).

(** [formattedAmount] of [setMaxAmount], once the four values are there. *)
Definition formattedAmount (chain : Chain) (baseToken : Token) (rawBalance : Z)
  : JsString.t :=
  let decimals := tokenDecimals baseToken in
  computeMax rawBalance decimals (isUbbn chain baseToken) (BABY_SUB_AMOUNT decimals).

Record TransferData : Type := {
  sourceChain : option Chain;
  baseToken : option Token;
  baseTokenBalance : option TokenBalance;
  rawAmount : JsString.t               (* [transferData.raw.amount] *)
}.

(** What the action can touch: the store, the input element with id
    ["amount"] (its value, when the element is in the document) and the
    events dispatched on it. *)
Record Page : Type := {
  transferData : TransferData;
  amountInput : option JsString.t;
  dispatched : list JsString.t
}.

(** Modelled from the spec: [updateField] belongs to the transfer store,
    which is not among the sources.  Section 6 (FormFieldSink): it accepts a
    DisplayAmount and propagates it into the shared form state. *)
Definition updateField (amount : JsString.t) (page : Page) : Page :=
  let td := transferData page in
  {| transferData := {| sourceChain := sourceChain td;
                        baseToken := baseToken td;
                        baseTokenBalance := baseTokenBalance td;
                        rawAmount := amount |};
     amountInput := amountInput page;
     dispatched := dispatched page |}.

(** [inputElement.value = v; inputElement.dispatchEvent(new Event("input"))]:
    the event reaches the [oninput] handler of the field, which writes the
    value of the element to the store. *)
Definition writeAndDispatch (v : JsString.t) (page : Page) : Page :=
  updateField v
    {| transferData := transferData page;
       amountInput := Some v;
       dispatched := dispatched page ++ [js "input"] |}.

Definition setMaxAmount (page : Page) : Page :=
  let td := transferData page in
  match baseToken td with
  | None => page
  | Some baseToken =>
      match baseTokenBalance td with
      | None => page
      | Some tokenBalance =>
          match balance tokenBalance with
          | None => page
          | Some rawBalance =>
              match sourceChain td with
              | None => page
              | Some chain =>
                  let formattedAmount := formattedAmount chain baseToken rawBalance in
                  let page := updateField formattedAmount page in
                  match amountInput page with
                  | Some _ => writeAndDispatch formattedAmount page
                  | None => page
                  end
              end
          end
      end
  end.

(** [displayBalance] *)
Definition displayBalance (td : TransferData) : JsString.t :=
  match sourceChain td, baseToken td, baseTokenBalance td with
  | Some _, Some baseToken, Some tokenBalance =>
      match balance tokenBalance with
      | Some raw => formatUnits raw (tokenDecimals baseToken)
      | None => []
      end
  | _, _, _ => []
  end.

(** ** The balance label *)

Definition isSome {A} (o : option A) : bool :=
  match o with Some _ => true | None => false end.

(** [allDataReadyForBalance] (lines 24-31); the balance of the record is
    read only once the record is there. *)
Definition allDataReadyForBalance (td : TransferData) : bool :=
  isSome (sourceChain td)
  && isSome (baseToken td)
  && isSome (baseTokenBalance td)
  && match baseTokenBalance td with
     | Some record => isSome (balance record)
     | None => false
     end.

(** What the markup of lines 105-111 puts behind [BALANCE:]. *)
Inductive BalanceLabel : Type :=
| ShowsZero : BalanceLabel
| ShowsSkeleton : BalanceLabel
| ShowsBalance : JsString.t -> BalanceLabel.

(** [rawSource] and [rawAsset] say whether [transferData.raw.source] and
    [transferData.raw.asset] are truthy. *)
Definition balanceLabel (rawSource rawAsset : bool) (td : TransferData)
  : BalanceLabel :=
  if negb rawSource || negb rawAsset then ShowsZero
  else if negb (allDataReadyForBalance td) then ShowsSkeleton
  else ShowsBalance (displayBalance td).

(** A page whose store is ready: chain, token and a resolved balance. *)
Definition readyPage (chain : Chain) (token : Token) (raw : Z)
    (amount : JsString.t) (input : option JsString.t) : Page :=
  {| transferData :=
       {| sourceChain := Some chain;
          baseToken := Some token;
          baseTokenBalance := Some {| balance := Some raw |};
          rawAmount := amount |};
     amountInput := input;
     dispatched := [] |}.

(** ** Concrete events *)

(** Typing [fragment] into a field that holds [text]. *)
Definition typing (text fragment : JsString.t) : InputEvent :=
  {| inputType := js "insertText"; data := Some fragment; value := text |}.

(** Pressing backspace in a field that holds [text]. *)
Definition backspace (text : JsString.t) : InputEvent :=
  {| inputType := js "deleteContentBackward"; data := None; value := text |}.

(** The chain and the token for which [setMaxAmount] keeps a reserve. *)
Definition babylon : Chain := {| universal_chain_id := js "babylon.bbn-1" |}.

Definition ubbn : Token :=
  {| denom := js "0x7562626e"; representations := [ {| decimals := Some 6 |} ] |}.

(** A page with a token selected and nothing else. *)
Definition pageWithoutBalance : Page :=
  {| transferData :=
       {| sourceChain := None;
          baseToken := Some ubbn;
          baseTokenBalance := None;
          rawAmount := js "1.5" |};
     amountInput := Some (js "1.5");
     dispatched := [] |}.

(** A token whose metadata has no representation. *)
Definition bareToken : Token :=
  {| denom := js "0x7562626e"; representations := [] |}.

(** ** Checks on concrete inputs *)

Example guard_accepts_separator :
  allow 2 {| inputType := js "insertText"; data := Some (js "."); value := js "1" |}
  = Some true.
Proof. reflexivity. Qed.

Example guard_rejects_third_decimal :
  allow 2 {| inputType := js "insertText"; data := Some (js "4"); value := js "1.23" |}
  = Some false.
Proof. reflexivity. Qed.

Example guard_rejects_double_zero :
  allow 2 {| inputType := js "insertText"; data := Some (js "0"); value := js "0" |}
  = Some false.
Proof. reflexivity. Qed.

Example toHex_ubbn : toHex (js "ubbn") = js "0x7562626e".
Proof. reflexivity. Qed.

Example formatUnits_examples :
  formatUnits 1234500 3 = js "1234.5"
  /\ formatUnits 5 3 = js "0.005"
  /\ formatUnits 0 6 = js "0"
  /\ formatUnits 25000000 6 = js "25"
  /\ formatUnits 120 0 = js "120"
  /\ formatUnits (-1500) 3 = js "-1.5".
Proof. repeat split; reflexivity. Qed.

Example toBaseUnits_examples :
  toBaseUnits (js "1234.5") 3 = Some 1234500%Z
  /\ toBaseUnits (js "0.005") 3 = Some 5%Z
  /\ toBaseUnits (js "1,5") 1 = Some 15%Z
  /\ toBaseUnits (js "1.2345") 3 = None
  /\ toBaseUnits (js "") 3 = Some 0%Z.
Proof. repeat split; reflexivity. Qed.

Example computeMax_examples :
  computeMax 45 0 true 20 = js "25"
  /\ computeMax 25 0 true 20 = js "5"
  /\ computeMax 10000000 6 true 20000000 = js "10"
  /\ computeMax 45000000 6 false 20000000 = js "45".
Proof. repeat split; reflexivity. Qed.

(** ** Derivatives decide the words of a pattern *)

Create HintDb regex.

Section RegexFacts.

Local Hint Constructors Matches : regex.

Lemma nullable_Matches (r : regex) : nullable r = true <-> Matches r [].
Proof.
  split.
  - induction r; simpl; intros H; try discriminate; auto with regex.
    + apply andb_true_iff in H as [H1 H2].
      change (@nil ascii) with (@nil ascii ++ []); auto with regex.
    + apply orb_true_iff in H as [H | H]; auto with regex.
  - intros H. remember [] as w eqn:Hw.
    induction H; simpl; try discriminate; auto.
    + apply app_eq_nil in Hw as [-> ->]. rewrite IHMatches1, IHMatches2; auto.
    + rewrite IHMatches; auto.
    + rewrite IHMatches; auto using orb_true_r.
Qed.

Lemma Matches_deriv (r : regex) (w : JsString.t) :
  Matches r w -> forall c s, w = c :: s -> Matches (deriv c r) s.
Proof.
  induction 1 as [ | p c' Hp | r1 r2 s1 s2 H1 IH1 H2 IH2 | r1 r2 w H IH
                 | r1 r2 w H IH | r | r s1 s2 H1 IH1 H2 IH2 ];
    intros c s Hw; simpl.
  - discriminate.
  - injection Hw as -> <-. rewrite Hp. constructor.
  - destruct s1 as [ | c1 s1']; simpl in Hw.
    + apply nullable_Matches in H1. rewrite H1. apply MAltR. auto.
    + injection Hw as -> <-.
      destruct (nullable r1); [apply MAltL | ]; constructor; auto.
  - apply MAltL; auto.
  - apply MAltR; auto.
  - discriminate.
  - destruct s1 as [ | c1 s1']; simpl in Hw.
    + apply (IH2 c s Hw).
    + injection Hw as -> <-. constructor; auto.
Qed.

Lemma deriv_Matches (r : regex) :
  forall c s, Matches (deriv c r) s -> Matches r (c :: s).
Proof.
  induction r as [ | | p | r1 IH1 r2 IH2 | r1 IH1 r2 IH2 | r1 IH1 ];
    intros c s H; simpl in H.
  - inversion H.
  - inversion H.
  - destruct (p c) eqn:Hp; inversion H; subst. constructor; exact Hp.
  - destruct (nullable r1) eqn:Hn.
    + inversion H as [ | | | ? ? ? HL | ? ? ? HR | | ]; subst.
      * inversion HL; subst.
        change (c :: s1 ++ s2) with ((c :: s1) ++ s2). constructor; auto.
      * change (c :: s) with ([] ++ c :: s).
        constructor; [apply nullable_Matches; exact Hn | auto].
    + inversion H; subst.
      change (c :: s1 ++ s2) with ((c :: s1) ++ s2). constructor; auto.
  - inversion H; subst; [apply MAltL | apply MAltR]; auto.
  - inversion H; subst.
    change (c :: s1 ++ s2) with ((c :: s1) ++ s2). constructor; auto.
Qed.

Lemma test_Matches (r : regex) (s : JsString.t) :
  test r s = true <-> Matches r s.
Proof.
  revert r. induction s as [ | c s IH]; intros r; simpl.
  - apply nullable_Matches.
  - rewrite IH. split.
    + apply deriv_Matches.
    + intros H. apply (Matches_deriv r (c :: s) H c s eq_refl).
Qed.

End RegexFacts.

(** ** The shape [\d*[.,]?\d*] *)

Lemma star_digits (s : JsString.t) :
  Matches (Star (Class isDigit)) s <-> allDigits s = true.
Proof.
  split.
  - intros H. remember (Star (Class isDigit)) as r eqn:Hr.
    induction H as [ | | | | | | r' s1 s2 H1 _ H2 IH2 ];
      try discriminate; injection Hr as ->; auto.
    inversion H1 as [ | p c Hc | | | | | ]; subst. simpl. rewrite Hc. auto.
  - induction s as [ | c s IH]; simpl; intros H.
    + constructor.
    + apply andb_true_iff in H as [Hc Hs].
      change (c :: s) with ([c] ++ s). constructor; [constructor | ]; auto.
Qed.

Lemma amountShape_words (s : JsString.t) :
  Matches amountShape s <->
  allDigits s = true
  \/ exists a c b, s = a ++ c :: b
       /\ allDigits a = true /\ isSeparator c = true /\ allDigits b = true.
Proof.
  unfold amountShape, Opt. split.
  - intros H. inversion H as [ | | ? ? a w Ha Hw | | | | ]; subst.
    inversion Hw as [ | | ? ? m b Hm Hb | | | | ]; subst.
    apply star_digits in Ha. apply star_digits in Hb.
    inversion Hm as [ | | | ? ? ? Hc | ? ? ? He | | ]; subst.
    + inversion Hc; subst. right. exists a, c, b. auto.
    + inversion He; subst. left. unfold allDigits in *. simpl.
      rewrite forallb_app, Ha, Hb. reflexivity.
  - intros [H | (a & c & b & -> & Ha & Hc & Hb)].
    + rewrite <- (app_nil_r s). constructor; [apply star_digits; exact H | ].
      change (@nil ascii) with (@nil ascii ++ []).
      constructor; [apply MAltR | ]; constructor.
    + constructor; [apply star_digits; exact Ha | ].
      change (c :: b) with ([c] ++ b).
      constructor; [apply MAltL; constructor; exact Hc | apply star_digits; exact Hb].
Qed.

Lemma digit_not_separator (c : ascii) :
  isDigit c = true -> isSeparator c = false.
Proof.
  unfold isDigit, isSeparator. intros H.
  apply andb_true_iff in H as [H1 H2].
  apply N.leb_le in H1.
  destruct (Ascii.eqb_spec c "."%char) as [-> | _]; [simpl in H1; lia | ].
  destruct (Ascii.eqb_spec c ","%char) as [-> | _]; [simpl in H1; lia | ].
  reflexivity.
Qed.

Lemma allDigits_no_separator (s : JsString.t) (sep : ascii) :
  allDigits s = true -> isSeparator sep = true -> ~ In sep s.
Proof.
  intros Hs Hsep Hin. unfold allDigits in Hs.
  rewrite forallb_forall in Hs. apply Hs in Hin.
  apply digit_not_separator in Hin. congruence.
Qed.

(** ** [includes], [split] and the text after a separator *)

Lemma includes_char (sep : ascii) (s : JsString.t) :
  includes [sep] s = true <-> In sep s.
Proof.
  induction s as [ | c s IH]; simpl.
  - split; [discriminate | tauto].
  - rewrite andb_true_r, orb_true_iff, IH.
    destruct (Ascii.eqb_spec sep c) as [-> | Hne]; split; auto.
    + intros [H | H]; [discriminate | auto].
    + intros [H | H]; [congruence | auto].
Qed.

Lemma split_absent (sep : ascii) (s : JsString.t) :
  ~ In sep s -> split sep s = [s].
Proof.
  induction s as [ | c s IH]; simpl; intros H; [reflexivity | ].
  destruct (Ascii.eqb_spec c sep) as [-> | Hne]; [tauto | ].
  rewrite IH by tauto. reflexivity.
Qed.

Lemma split_first (sep : ascii) (a b : JsString.t) :
  ~ In sep a -> split sep (a ++ sep :: b) = a :: split sep b.
Proof.
  induction a as [ | c a IH]; simpl; intros H.
  - rewrite Ascii.eqb_refl. reflexivity.
  - destruct (Ascii.eqb_spec c sep) as [-> | Hne]; [tauto | ].
    rewrite IH by tauto. reflexivity.
Qed.

Lemma split_nonempty (sep : ascii) (s : JsString.t) :
  exists piece rest, split sep s = piece :: rest.
Proof.
  induction s as [ | c s (piece & rest & IH)]; simpl; eauto.
  destruct (Ascii.eqb c sep); eauto. rewrite IH. eauto.
Qed.

Lemma In_first_occurrence (sep : ascii) (s : JsString.t) :
  In sep s -> exists a b, s = a ++ sep :: b /\ ~ In sep a.
Proof.
  induction s as [ | c s IH]; simpl; intros H; [tauto | ].
  destruct (Ascii.eqb_spec c sep) as [-> | Hne].
  - exists [], s. auto.
  - destruct H as [H | H]; [congruence | ].
    destruct (IH H) as (a & b & -> & Ha).
    exists (c :: a), b. split; [reflexivity | ].
    simpl. intros [E | E]; auto.
Qed.

Lemma afterFirst_absent (sep : ascii) (s : JsString.t) :
  ~ In sep s -> afterFirst sep s = None.
Proof.
  induction s as [ | c s IH]; simpl; intros H; [reflexivity | ].
  destruct (Ascii.eqb_spec c sep) as [-> | Hne]; [tauto | ].
  apply IH. tauto.
Qed.

Lemma afterFirst_first (sep : ascii) (a b : JsString.t) :
  ~ In sep a -> afterFirst sep (a ++ sep :: b) = Some b.
Proof.
  induction a as [ | c a IH]; simpl; intros H.
  - rewrite Ascii.eqb_refl. reflexivity.
  - destruct (Ascii.eqb_spec c sep) as [-> | Hne]; [tauto | ].
    apply IH. tauto.
Qed.

(** Reading [split(sep)[1]] after [includes(sep)] never throws. *)
Lemma validDecimalsFor_total (sep : ascii) (p : JsString.t) (maxDecimals : nat) :
  exists b, validDecimalsFor sep p maxDecimals = Some b.
Proof.
  unfold validDecimalsFor, secondPieceLength.
  destruct (includes [sep] p) eqn:Hin; simpl; eauto.
  apply includes_char, In_first_occurrence in Hin as (a & b & -> & Ha).
  rewrite split_first by exact Ha.
  destruct (split_nonempty sep b) as (piece & rest & ->). simpl. eauto.
Qed.

Lemma withinPrecision_ok (sep : ascii) (maxDecimals : nat) (p : JsString.t) :
  withinPrecision sep maxDecimals p <-> precisionOk sep maxDecimals p = true.
Proof.
  unfold withinPrecision, precisionOk.
  destruct (afterFirst sep p) as [f | ]; split; intros H; auto.
  - apply Nat.leb_le. auto.
  - intros f' E. injection E as <-. apply Nat.leb_le. exact H.
  - discriminate.
Qed.

(** On a text of the right shape the handler's [split] reads the whole
    fractional part. *)
Lemma validDecimalsFor_shape (sep : ascii) (p : JsString.t) (maxDecimals : nat) :
  Matches amountShape p -> isSeparator sep = true ->
  validDecimalsFor sep p maxDecimals = Some (precisionOk sep maxDecimals p).
Proof.
  intros Hshape Hsep. unfold validDecimalsFor, secondPieceLength, precisionOk.
  apply amountShape_words in Hshape as [Hd | (a & c & b & -> & Ha & Hc & Hb)].
  - pose proof (@allDigits_no_separator _ _ Hd Hsep) as Hno.
    destruct (includes [sep] p) eqn:Hin.
    + apply includes_char in Hin. tauto.
    + simpl. rewrite afterFirst_absent by exact Hno. reflexivity.
  - pose proof (@allDigits_no_separator _ _ Ha Hsep) as Hnoa.
    pose proof (@allDigits_no_separator _ _ Hb Hsep) as Hnob.
    destruct (Ascii.eqb_spec c sep) as [-> | Hne].
    + assert (Hin : includes [sep] (a ++ sep :: b) = true).
      { apply includes_char, in_or_app. right. left. reflexivity. }
      rewrite Hin. simpl.
      rewrite split_first, split_absent, afterFirst_first by assumption.
      reflexivity.
    + assert (Hno : ~ In sep (a ++ c :: b)).
      { intros H. apply in_app_or in H as [H | [H | H]]; auto. }
      destruct (includes [sep] (a ++ c :: b)) eqn:Hin.
      * apply includes_char in Hin. tauto.
      * simpl. rewrite afterFirst_absent by exact Hno. reflexivity.
Qed.

(** ** The guard in closed form *)

Lemma allow_closed_form (maxDecimals : nat) (event : InputEvent) :
  allow maxDecimals event
  = Some (isDelete event
          || (validShape (proposed event)
              && precisionOk "."%char maxDecimals (proposed event)
              && precisionOk ","%char maxDecimals (proposed event)
              && noDuplicateLeadingZeroes (proposed event))).
Proof.
  unfold allow, validDecimalsDot, validDecimalsComma.
  destruct (validDecimalsFor_total "."%char (proposed event) maxDecimals) as [b1 E1].
  destruct (validDecimalsFor_total ","%char (proposed event) maxDecimals) as [b2 E2].
  destruct (validShape (proposed event)) eqn:Hshape.
  - apply test_Matches in Hshape.
    rewrite (validDecimalsFor_shape "."%char _ maxDecimals Hshape) by reflexivity.
    rewrite (validDecimalsFor_shape ","%char _ maxDecimals Hshape) by reflexivity.
    f_equal. f_equal.
    destruct (precisionOk "."%char maxDecimals (proposed event)),
             (precisionOk ","%char maxDecimals (proposed event)); reflexivity.
  - rewrite E1, E2. simpl. rewrite andb_false_r. reflexivity.
Qed.

Lemma afterFirst_behind (sep : ascii) (a rest : JsString.t) :
  exists fraction,
    afterFirst sep (a ++ sep :: rest) = Some fraction
    /\ length rest <= length fraction.
Proof.
  induction a as [ | c a (f & E & Hlen)]; simpl.
  - rewrite Ascii.eqb_refl. eauto.
  - destruct (Ascii.eqb c sep).
    + eexists. split; [reflexivity | ]. rewrite length_app. simpl. lia.
    + eauto.
Qed.

Lemma allDigits_filter_separator (s : JsString.t) :
  allDigits s = true -> filter isSeparator s = [].
Proof.
  induction s as [ | c s IH]; simpl; intros H; [reflexivity | ].
  apply andb_true_iff in H as [Hc Hs].
  rewrite (digit_not_separator _ Hc). auto.
Qed.

Lemma amountShape_one_separator (p : JsString.t) :
  Matches amountShape p -> separatorCount p <= 1.
Proof.
  unfold separatorCount. intros H.
  apply amountShape_words in H as [Hd | (a & c & b & -> & Ha & Hc & Hb)].
  - rewrite allDigits_filter_separator by exact Hd. simpl. lia.
  - rewrite filter_app. simpl. rewrite Hc.
    rewrite !allDigits_filter_separator by assumption. simpl. lia.
Qed.

(** With no fractional digit allowed, a text with anything behind a
    separator fails the precision rule of that separator. *)
Lemma precisionOk_zero_behind (sep c : ascii) (a b : JsString.t) :
  precisionOk sep 0 (a ++ sep :: c :: b) = false.
Proof.
  unfold precisionOk.
  destruct (afterFirst_behind sep a (c :: b)) as (f & -> & Hlen).
  simpl in Hlen. apply Nat.leb_gt. lia.
Qed.

Lemma zero_precision_rejects (event : InputEvent) (sep : ascii) (a b : JsString.t) :
  isDelete event = false ->
  isSeparator sep = true ->
  proposed event = a ++ sep :: b ->
  b <> [] ->
  allow 0 event = Some false.
Proof.
  intros Hdel Hsep Hp Hb. destruct b as [ | c b]; [congruence | ].
  rewrite allow_closed_form, Hdel, Hp. simpl. f_equal.
  unfold isSeparator in Hsep. apply orb_true_iff in Hsep as [E | E];
    apply Ascii.eqb_eq in E; subst sep;
    rewrite precisionOk_zero_behind;
    rewrite ?andb_false_r; reflexivity.
Qed.

Lemma startsWith_app (p a b : JsString.t) :
  length p <= length a -> startsWith p (a ++ b) = startsWith p a.
Proof.
  revert a. induction p as [ | x p IH]; intros a Hlen; [reflexivity | ].
  destruct a as [ | y a]; simpl in *; [lia | ].
  rewrite IH by lia. reflexivity.
Qed.

(** ** Prefixes and separators of a text *)

Lemma amountShape_prefix (q r : JsString.t) :
  Matches amountShape (q ++ r) -> Matches amountShape q.
Proof.
  intros H. apply amountShape_words.
  apply amountShape_words in H as [Hd | (a & c & b & E & Ha & Hc & Hb)].
  - left. unfold allDigits in *. rewrite forallb_app in Hd.
    apply andb_true_iff in Hd as [Hq _]. exact Hq.
  - apply app_eq_app in E as [l [[-> E] | [-> E]]].
    + destruct l as [ | c' l].
      * left. rewrite app_nil_r. exact Ha.
      * injection E as <- ->. right. exists a, c, l.
        unfold allDigits in Hb. rewrite forallb_app in Hb.
        apply andb_true_iff in Hb as [Hl _]. auto.
    + left. unfold allDigits in *. rewrite forallb_app in Ha.
      apply andb_true_iff in Ha as [Hq _]. exact Hq.
Qed.

Lemma separatorCount_app (a b : JsString.t) :
  separatorCount (a ++ b) = separatorCount a + separatorCount b.
Proof. unfold separatorCount. rewrite filter_app, length_app. reflexivity. Qed.

Lemma separatorCount_In (c : ascii) (p : JsString.t) :
  In c p -> isSeparator c = true -> 1 <= separatorCount p.
Proof.
  intros Hin Hc. unfold separatorCount.
  assert (H : In c (filter isSeparator p)) by (apply filter_In; auto).
  destruct (filter isSeparator p); [destruct H | simpl; lia].
Qed.

Lemma startsWith_double_zero_cut (integer rest : JsString.t) (c : ascii) :
  isDigit c = false ->
  startsWith (js "00") (integer ++ c :: rest) = startsWith (js "00") integer.
Proof.
  intros Hc. destruct integer as [ | x [ | y integer]].
  - cbn -[Ascii.eqb].
    destruct (Ascii.eqb_spec "0"%char c) as [<- | _]; [discriminate Hc | reflexivity].
  - cbn -[Ascii.eqb].
    destruct (Ascii.eqb_spec "0"%char c) as [<- | _]; [discriminate Hc | reflexivity].
  - apply startsWith_app. simpl. lia.
Qed.

Lemma separator_not_digit (c : ascii) : isSeparator c = true -> isDigit c = false.
Proof.
  intros H. destruct (isDigit c) eqn:E; [ | reflexivity].
  apply digit_not_separator in E. congruence.
Qed.

(** ** The claims about the guard *)

Lemma allow_iff_specAccepts (maxDecimals : nat) (event : InputEvent) :
  allow maxDecimals event = Some true <-> specAccepts maxDecimals event.
Proof.
  rewrite allow_closed_form.
  unfold specAccepts, noDuplicateLeadingZeroes, validShape.
  rewrite !withinPrecision_ok, <- test_Matches.
  split.
  - intros H. injection H as H.
    apply orb_true_iff in H as [H | H]; [left; exact H | right].
    repeat (apply andb_true_iff in H as [H ?]).
    repeat split; auto. apply negb_true_iff. assumption.
  - intros [H | (H1 & H2 & H3 & H4)].
    + rewrite H. reflexivity.
    + rewrite H1, H2, H3, H4. simpl. rewrite orb_true_r. reflexivity.
Qed.

(** C1. For every edit proposal (current text [value], inserted fragment
    [data], kind [inputType]) and every [maxDecimals] the handler ends
    without throwing, and it accepts the edit (does not prevent the default)
    exactly when the edit is a deletion, or the text [value + (data ?? "")]
    matches [^\d*[.,]?\d*$], has at most [maxDecimals] characters after its
    first ['.'] if it has one, at most [maxDecimals] after its first [',']
    if it has one, and does not start with ["00"]. *)
Theorem C1_guard_accepts_iff (maxDecimals : nat) (event : InputEvent) :
  (exists verdict, allow maxDecimals event = Some verdict)
  /\ (allow maxDecimals event = Some true <->
      isDelete event = true
      \/ let text := value event
                     ++ match data event with
                        | Some fragment => fragment
                        | None => []
                        end in
         Matches amountShape text
         /\ withinPrecision "."%char maxDecimals text
         /\ withinPrecision ","%char maxDecimals text
         /\ startsWith (js "00") text = false).
Proof.
  split.
  - rewrite allow_closed_form. eauto.
  - rewrite allow_iff_specAccepts. unfold specAccepts, proposed. cbv zeta.
    reflexivity.
Qed.

(** C4, as the specification states it, fails: a deletion is accepted
    whatever the text.  With the field holding ["000"] (reached from
    ["1000"] by deleting the ["1"]), a further deletion is accepted although
    the text the guard computes starts with ["00"], and so does what is left
    of it once one of its characters is gone. *)
Lemma C4_accepted_deletion_not_well_formed :
  allow 2 (backspace (js "000")) = Some true
  /\ ~ wellFormedAmount 2 (proposed (backspace (js "000"))).
Proof.
  split; [reflexivity | ].
  intros (_ & _ & _ & _ & H). discriminate H.
Qed.

(** C4, amended. Every text accepted by the guard for an edit that is not a
    deletion matches [^\d*[.,]?\d*$], contains at most one fractional
    separator, has at most [maxDecimals] characters after whichever
    separator is present and does not start with ["00"]. *)
Theorem C4_accepted_insertion_well_formed (maxDecimals : nat) (event : InputEvent) :
  allow maxDecimals event = Some true ->
  isDelete event = false ->
  wellFormedAmount maxDecimals (proposed event).
Proof.
  intros Hallow Hdel.
  apply allow_iff_specAccepts in Hallow.
  destruct Hallow as [H | (H1 & H2 & H3 & H4)]; [congruence | ].
  unfold wellFormedAmount. auto using amountShape_one_separator.
Qed.

Lemma C4_accepted_insertion_well_formed_witness :
  wellFormedAmount 2 (proposed (typing (js "1") (js "."))).
Proof.
  apply (C4_accepted_insertion_well_formed 2 (typing (js "1") (js "."))).
  - reflexivity.
  - reflexivity.
Defined.

(** C5. An edit whose input type is a deletion is accepted whatever the
    text is, also when the text breaks the shape, precision or leading-zero
    rules. *)
Theorem C5_deletion_accepted (maxDecimals : nat) (event : InputEvent) :
  isDelete event = true -> allow maxDecimals event = Some true.
Proof.
  intros H. rewrite allow_closed_form, H. reflexivity.
Qed.

Lemma C5_deletion_accepted_witness :
  allow 0 (backspace (js "00.1.23x")) = Some true.
Proof.
  apply (C5_deletion_accepted 0 (backspace (js "00.1.23x"))).
  reflexivity.
Defined.

(** C9, as the specification states it, fails in its second part: at
    [maxDecimals = 0] a text that ends in a bare separator is still rejected
    when what stands before the separator breaks another rule.  Typing ["."]
    after ["00"] and typing ["."] after ["1,"] are both rejected, although
    each text ends in a separator with no digit behind it. *)
Lemma C9_bare_separator_rejected :
  (proposed (typing (js "00") (js ".")) = js "00" ++ [ "."%char ]
   /\ isDelete (typing (js "00") (js ".")) = false
   /\ allow 0 (typing (js "00") (js ".")) = Some false)
  /\ (proposed (typing (js "1,") (js ".")) = js "1," ++ [ "."%char ]
      /\ isDelete (typing (js "1,") (js ".")) = false
      /\ allow 0 (typing (js "1,") (js ".")) = Some false).
Proof. repeat split; reflexivity. Qed.

(** C9, amended. With [maxDecimals = 0] an insertion whose text has one or
    more digits after a fractional separator is rejected, while a text that
    ends in a bare separator is accepted exactly when what stands before the
    separator is made of digits and does not start with ["00"]; and typing
    ["."] after ["1"] is accepted for [maxDecimals = 2]. *)
Theorem C9_zero_precision (event : InputEvent) (sep : ascii) (a b : JsString.t) :
  isDelete event = false ->
  isSeparator sep = true ->
  (proposed event = a ++ sep :: b ->
   (exists c, In c b /\ isDigit c = true) ->
   allow 0 event = Some false)
  /\ (proposed event = a ++ [sep] ->
      (allow 0 event = Some true
       <-> allDigits a = true /\ startsWith (js "00") a = false))
  /\ allow 2 (typing (js "1") (js ".")) = Some true.
Proof.
  intros Hdel Hsep. split; [ | split].
  - intros Hp (c & Hin & _).
    apply (zero_precision_rejects event sep a b Hdel Hsep Hp).
    intros ->. exact Hin.
  - intros Hp. rewrite allow_closed_form, Hdel, Hp. cbn [orb].
    unfold noDuplicateLeadingZeroes.
    rewrite startsWith_double_zero_cut by (apply separator_not_digit; exact Hsep).
    split.
    + intros H. injection H as H.
      repeat (apply andb_true_iff in H as [H ?]).
      assert (Hshape : Matches amountShape (a ++ [sep])) by (apply test_Matches; exact H).
      split; [ | apply negb_true_iff; assumption].
      pose proof (amountShape_one_separator _ Hshape) as Hone.
      rewrite separatorCount_app in Hone.
      assert (Hlast : separatorCount [sep] = 1).
      { unfold separatorCount. simpl. rewrite Hsep. reflexivity. }
      apply amountShape_prefix, amountShape_words in Hshape
        as [Hd | (x & c & y & -> & _ & Hc & _)]; [exact Hd | ].
      assert (1 <= separatorCount (x ++ c :: y)).
      { apply (separatorCount_In c); [ | exact Hc].
        apply in_or_app. right. left. reflexivity. }
      lia.
    + intros [Ha H00]. f_equal.
      assert (Hshape : validShape (a ++ [sep]) = true).
      { apply test_Matches, amountShape_words. right.
        exists a, sep, []. auto. }
      assert (Hprec : forall sep', isSeparator sep' = true ->
                                   precisionOk sep' 0 (a ++ [sep]) = true).
      { intros sep' Hsep'. unfold precisionOk.
        pose proof (@allDigits_no_separator _ _ Ha Hsep') as Hno.
        destruct (Ascii.eqb_spec sep sep') as [-> | Hne].
        - rewrite afterFirst_first by exact Hno. reflexivity.
        - rewrite afterFirst_absent; [reflexivity | ].
          intros H. apply in_app_or in H as [H | [H | []]]; auto. }
      rewrite Hshape, H00, !Hprec by reflexivity. reflexivity.
  - reflexivity.
Qed.

Lemma C9_zero_precision_witness :
  (allow 0 (typing (js "7.") (js "5")) = Some false)
  /\ (allow 0 (typing (js "7") (js ".")) = Some true
      <-> allDigits (js "7") = true /\ startsWith (js "00") (js "7") = false)
  /\ allow 2 (typing (js "1") (js ".")) = Some true.
Proof.
  destruct (C9_zero_precision (typing (js "7.") (js "5")) "."%char (js "7") (js "5")
              eq_refl eq_refl) as (Hreject & _ & _).
  destruct (C9_zero_precision (typing (js "7") (js ".")) "."%char (js "7") []
              eq_refl eq_refl) as (_ & Haccept & Hexample).
  split; [ | split].
  - apply Hreject; [reflexivity | ].
    exists "5"%char. split; [left; reflexivity | reflexivity].
  - apply Haccept. reflexivity.
  - exact Hexample.
Defined.

(** ** Decimal text of a natural number *)

Module BigIntFacts.

Import BigInt.

Local Open Scope N_scope.

Lemma pow10_succ (f : nat) : 10 ^ N.of_nat (S f) = 10 * 10 ^ N.of_nat f.
Proof. rewrite Nat2N.inj_succ, N.pow_succ_r'. reflexivity. Qed.

Lemma digitsOf_acc (fuel : nat) :
  forall n acc, digitsOf fuel n acc = digitsOf fuel n [] ++ acc.
Proof.
  induction fuel as [ | fuel IH]; intros n acc; simpl; [reflexivity | ].
  destruct (n / 10 =? 0); [reflexivity | ].
  rewrite IH, (IH _ [_]), <- app_assoc. reflexivity.
Qed.

Lemma digitsOf_fuel (f1 : nat) :
  forall f2 n acc,
    n < 10 ^ N.of_nat (S f1) -> n < 10 ^ N.of_nat (S f2) ->
    digitsOf f1 n acc = digitsOf f2 n acc.
Proof.
  induction f1 as [ | f1 IH]; intros [ | f2] n acc H1 H2; simpl.
  - reflexivity.
  - change (10 ^ N.of_nat 1) with 10 in H1.
    rewrite (N.div_small n 10 H1). reflexivity.
  - change (10 ^ N.of_nat 1) with 10 in H2.
    rewrite (N.div_small n 10 H2). reflexivity.
  - destruct (n / 10 =? 0); [reflexivity | ].
    rewrite pow10_succ in H1, H2.
    apply IH; apply N.Div0.div_lt_upper_bound; assumption.
Qed.

Lemma size_fuel (n : N) : n < 10 ^ N.of_nat (S (N.to_nat (N.size n))).
Proof.
  rewrite pow10_succ, N2Nat.id.
  pose proof (N.size_gt n) as H.
  assert (2 ^ N.size n <= 10 ^ N.size n) by (apply N.pow_le_mono_l; lia).
  lia.
Qed.

Lemma natToString_small (n : N) : n < 10 -> natToString n = [digitChar n].
Proof.
  intros H. unfold natToString.
  rewrite (digitsOf_fuel (N.to_nat (N.size n)) 0 n []).
  - simpl. rewrite N.mod_small by exact H. reflexivity.
  - apply size_fuel.
  - exact H.
Qed.

Lemma natToString_step (n : N) :
  10 <= n -> natToString n = natToString (n / 10) ++ [digitChar (n mod 10)].
Proof.
  intros H. unfold natToString.
  set (f := N.to_nat (N.size (n / 10))).
  assert (Hq : n / 10 < 10 ^ N.of_nat (S f)) by apply size_fuel.
  assert (Hn : n < 10 ^ N.of_nat (S (S f))).
  { rewrite pow10_succ.
    pose proof (N.Div0.div_mod n 10) as E.
    pose proof (N.mod_lt n 10 ltac:(lia)). lia. }
  rewrite (digitsOf_fuel (N.to_nat (N.size n)) (S f) n [] (size_fuel n) Hn).
  simpl. destruct (N.eqb_spec (n / 10) 0) as [E | _].
  - pose proof (N.Div0.div_mod n 10) as Ed.
    pose proof (N.mod_lt n 10 ltac:(lia)). lia.
  - apply digitsOf_acc.
Qed.

(** Induction along the decimal digits. *)
Lemma decimal_ind (P : N -> Prop) :
  (forall n, n < 10 -> P n) ->
  (forall n, 10 <= n -> P (n / 10) -> P n) ->
  forall n, P n.
Proof.
  intros Hsmall Hstep n.
  induction n as [n IH] using (well_founded_induction N.lt_wf_0).
  destruct (N.lt_ge_cases n 10) as [H | H]; [auto | ].
  apply Hstep; [exact H | ]. apply IH.
  apply N.Div0.div_lt_upper_bound. lia.
Qed.

Lemma digitValue_digitChar (d : N) : d < 10 -> digitValue (digitChar d) = d.
Proof.
  intros H. unfold digitValue, digitChar.
  rewrite N_ascii_embedding by lia. lia.
Qed.

Lemma isDigit_digitChar (d : N) : d < 10 -> isDigit (digitChar d) = true.
Proof.
  intros H. unfold isDigit, digitChar.
  rewrite N_ascii_embedding by lia.
  apply andb_true_iff. split; apply N.leb_le; lia.
Qed.

Lemma parseDigits_snoc (s : JsString.t) (c : ascii) :
  parseDigits (s ++ [c]) = 10 * parseDigits s + digitValue c.
Proof. unfold parseDigits. rewrite fold_left_app. reflexivity. Qed.

Lemma parseDigits_app (a b : JsString.t) :
  parseDigits (a ++ b) = parseDigits a * 10 ^ N.of_nat (length b) + parseDigits b.
Proof.
  induction b as [ | c b IH] using rev_ind.
  - rewrite app_nil_r. simpl. change (parseDigits []) with 0. lia.
  - rewrite app_assoc, !parseDigits_snoc, IH, length_app.
    change (length [c]) with 1%nat.
    rewrite Nat.add_1_r, pow10_succ. nia.
Qed.

Lemma parseDigits_zeros (k : nat) : parseDigits (repeat "0"%char k) = 0.
Proof.
  induction k as [ | k IH]; [reflexivity | ].
  cbn [repeat]. rewrite repeat_cons, parseDigits_snoc, IH. reflexivity.
Qed.

Lemma allDigits_zeros (k : nat) : allDigits (repeat "0"%char k) = true.
Proof. induction k; simpl; auto. Qed.

(** The decimal text reads back as the number. *)
Lemma parseDigits_natToString (n : N) : parseDigits (natToString n) = n.
Proof.
  induction n as [n H | n H IH] using decimal_ind.
  - rewrite natToString_small by exact H.
    change (parseDigits [digitChar n]) with (10 * 0 + digitValue (digitChar n)).
    rewrite digitValue_digitChar by exact H. lia.
  - rewrite natToString_step, parseDigits_snoc, IH by exact H.
    rewrite digitValue_digitChar by (apply N.mod_lt; lia).
    symmetry. apply N.Div0.div_mod.
Qed.

Lemma allDigits_natToString (n : N) : allDigits (natToString n) = true.
Proof.
  induction n as [n H | n H IH] using decimal_ind.
  - rewrite natToString_small by exact H. simpl.
    rewrite isDigit_digitChar by exact H. reflexivity.
  - rewrite natToString_step by exact H. unfold allDigits in *.
    rewrite forallb_app, IH. simpl.
    rewrite isDigit_digitChar by (apply N.mod_lt; lia). reflexivity.
Qed.

Lemma natToString_nonempty (n : N) : natToString n <> [].
Proof.
  destruct (N.lt_ge_cases n 10) as [H | H].
  - rewrite natToString_small by exact H. discriminate.
  - rewrite natToString_step by exact H. intros E.
    apply app_eq_nil in E as [_ E]. discriminate.
Qed.

End BigIntFacts.

(** ** [formatUnits] and its inverse *)

Section FormatUnitsFacts.

Import BigInt BigIntFacts.

Lemma trimTrailingZeros_spec (s : JsString.t) :
  trimTrailingZeros s
  ++ repeat "0"%char (length s - length (trimTrailingZeros s)) = s.
Proof.
  induction s as [ | c s IH]; [reflexivity | ].
  cbn [trimTrailingZeros]. destruct (trimTrailingZeros s) as [ | x r].
  - simpl in IH. rewrite Nat.sub_0_r in IH.
    destruct (Ascii.eqb_spec c "0"%char) as [-> | _]; simpl.
    + rewrite IH. reflexivity.
    + rewrite Nat.sub_0_r, IH. reflexivity.
  - change (length (c :: s) - length (c :: x :: r))%nat
      with (length s - length (x :: r))%nat.
    rewrite <- app_comm_cons, IH. reflexivity.
Qed.

Lemma trimTrailingZeros_length (s : JsString.t) :
  length (trimTrailingZeros s) <= length s.
Proof.
  rewrite <- (trimTrailingZeros_spec s) at 2. rewrite length_app. lia.
Qed.

Lemma trimTrailingZeros_digits (s : JsString.t) :
  allDigits s = true -> allDigits (trimTrailingZeros s) = true.
Proof.
  intros H. rewrite <- (trimTrailingZeros_spec s) in H.
  unfold allDigits in *. rewrite forallb_app in H.
  apply andb_true_iff in H as [H _]. exact H.
Qed.

Lemma trimTrailingZeros_zeros (k : nat) :
  trimTrailingZeros (repeat "0"%char k) = [].
Proof. induction k as [ | k IH]; simpl; [ | rewrite IH]; reflexivity. Qed.

Lemma startsWith_minus_digits (s : JsString.t) :
  allDigits s = true -> startsWith (js "-") s = false.
Proof.
  destruct s as [ | c s]; [reflexivity | ]. intros H.
  cbn -[Ascii.eqb] in *.
  apply andb_true_iff in H as [Hc _].
  destruct (Ascii.eqb_spec "-"%char c) as [<- | _]; [discriminate Hc | reflexivity].
Qed.

Lemma cutAtSeparator_digits (i : JsString.t) :
  allDigits i = true -> cutAtSeparator i = (i, None).
Proof.
  induction i as [ | c i IH]; simpl; intros H; [reflexivity | ].
  apply andb_true_iff in H as [Hc Hi].
  rewrite (digit_not_separator _ Hc), IH by exact Hi. reflexivity.
Qed.

Lemma cutAtSeparator_at (i t : JsString.t) (c : ascii) :
  allDigits i = true -> isSeparator c = true ->
  cutAtSeparator (i ++ c :: t) = (i, Some t).
Proof.
  intros Hi Hc. induction i as [ | x i IH]; simpl.
  - rewrite Hc. reflexivity.
  - simpl in Hi. apply andb_true_iff in Hi as [Hx Hi].
    rewrite (digit_not_separator _ Hx), IH by exact Hi. reflexivity.
Qed.

(** The steps of [formatUnits] on a non-negative value. *)
Lemma formatUnits_of_N (n : N) (decimals : nat) :
  formatUnits (Z.of_N n) decimals
  = let display := padStart decimals "0"%char (natToString n) in
    let integer := firstn (length display - decimals) display in
    let fraction := trimTrailingZeros (skipn (length display - decimals) display) in
    (match integer with [] => js "0" | _ => integer end)
    ++ (match fraction with [] => [] | _ => js "." ++ fraction end).
Proof.
  unfold formatUnits, toString.
  destruct (Z.ltb_spec (Z.of_N n) 0) as [H | _]; [lia | ].
  rewrite N2Z.id, startsWith_minus_digits by apply allDigits_natToString.
  unfold slice, sliceFrom. rewrite Nat.sub_0_r.
  reflexivity.
Qed.

Lemma padStart_digits (n : N) (decimals : nat) :
  let display := padStart decimals "0"%char (natToString n) in
  allDigits display = true
  /\ parseDigits display = n
  /\ decimals <= length display.
Proof.
  unfold padStart. repeat split.
  - unfold allDigits. rewrite forallb_app.
    fold (allDigits (repeat "0"%char (decimals - length (natToString n)))).
    fold (allDigits (natToString n)).
    rewrite allDigits_zeros, allDigits_natToString. reflexivity.
  - rewrite parseDigits_app, parseDigits_zeros, parseDigits_natToString. lia.
  - rewrite length_app, repeat_length. lia.
Qed.

(** Reading the formatted text back gives the value. *)
Lemma toBaseUnits_formatUnits_of_N (n : N) (decimals : nat) :
  toBaseUnits (formatUnits (Z.of_N n) decimals) decimals = Some (Z.of_N n).
Proof.
  rewrite formatUnits_of_N.
  destruct (padStart_digits n decimals) as (Hdigits & Hvalue & Hlen).
  set (display := padStart decimals "0"%char (natToString n)) in *.
  cbv zeta.
  set (k := (length display - decimals)%nat).
  pose proof (firstn_skipn k display) as Hcut.
  set (integer := firstn k display) in *.
  set (fraction := skipn k display) in *.
  assert (Hflen : length fraction = decimals).
  { unfold fraction. rewrite length_skipn. unfold k. lia. }
  assert (Hi : allDigits integer = true /\ allDigits fraction = true).
  { rewrite <- Hcut in Hdigits. unfold allDigits in *.
    rewrite forallb_app in Hdigits. apply andb_true_iff. exact Hdigits. }
  destruct Hi as [Hi Hf].
  pose proof (trimTrailingZeros_spec fraction) as Htrim.
  pose proof (trimTrailingZeros_digits fraction Hf) as Htd.
  pose proof (trimTrailingZeros_length fraction) as Htl.
  rewrite Hflen in Htrim, Htl.
  set (trimmed := trimTrailingZeros fraction) in *.
  set (shown := match integer with [] => _ | _ :: _ => _ end).
  assert (Hshown : allDigits shown = true /\ parseDigits shown = parseDigits integer).
  { unfold shown. destruct integer; auto. }
  destruct Hshown as [Hsd Hsv].
  assert (Hcutat :
    cutAtSeparator (shown ++ match trimmed with [] => [] | _ => js "." ++ trimmed end)
    = (shown, match trimmed with [] => None | _ => Some trimmed end)).
  { destruct trimmed as [ | x r].
    - rewrite app_nil_r. apply cutAtSeparator_digits. exact Hsd.
    - apply cutAtSeparator_at; [exact Hsd | reflexivity]. }
  unfold toBaseUnits. rewrite Hcutat.
  replace (match match trimmed with [] => None | _ => Some trimmed end with
           | Some f => f
           | None => []
           end) with trimmed by (destruct trimmed; reflexivity).
  rewrite Hsd, Htd. simpl andb.
  destruct (Nat.leb_spec (length trimmed) decimals) as [_ | H]; [ | lia].
  unfold padEnd. rewrite Htrim.
  rewrite parseDigits_app, Hsv, <- parseDigits_app, Hcut, Hvalue. reflexivity.
Qed.

Lemma toBaseUnits_formatUnits (value : Z) (decimals : nat) :
  (0 <= value)%Z ->
  toBaseUnits (formatUnits value decimals) decimals = Some value.
Proof.
  intros H. rewrite <- (Z2N.id value H). apply toBaseUnits_formatUnits_of_N.
Qed.

Lemma formatUnits_injective (a b : Z) (decimals : nat) :
  (0 <= a)%Z -> (0 <= b)%Z ->
  formatUnits a decimals = formatUnits b decimals -> a = b.
Proof.
  intros Ha Hb E.
  pose proof (toBaseUnits_formatUnits a decimals Ha) as H.
  rewrite E, toBaseUnits_formatUnits in H by exact Hb. congruence.
Qed.

End FormatUnitsFacts.

(** ** The usable amount *)

Lemma maxUsable_nonneg (isNative : bool) (rawBalance reserve : Z) :
  (0 <= rawBalance)%Z -> (0 <= maxUsable isNative rawBalance reserve)%Z.
Proof.
  intros H. unfold maxUsable.
  destruct isNative; simpl; [ | exact H].
  destruct (Z.gtb_spec rawBalance reserve); lia.
Qed.

(** C2. For every non-negative [rawBalance], every [decimals] and every
    non-negative [reserve], [computeMax] formats a usable amount that is
    [rawBalance - reserve] exactly when the asset is the native reserved one
    and [rawBalance > reserve], and [rawBalance] otherwise; the usable
    amount is never negative. *)
Theorem C2_usable_amount (rawBalance : Z) (decimals : nat) (isNativeReserved : bool)
    (reserve : Z) :
  (0 <= rawBalance)%Z -> (0 <= reserve)%Z ->
  exists usable : Z,
    computeMax rawBalance decimals isNativeReserved reserve
    = formatUnits usable decimals
    /\ (isNativeReserved = true /\ (rawBalance > reserve)%Z ->
        usable = (rawBalance - reserve)%Z)
    /\ (~ (isNativeReserved = true /\ (rawBalance > reserve)%Z) ->
        usable = rawBalance)
    /\ (0 <= usable)%Z.
Proof.
  intros Hraw _. exists (maxUsable isNativeReserved rawBalance reserve).
  split; [reflexivity | ].
  split; [ | split].
  - intros [-> Hgt]. unfold maxUsable. simpl.
    destruct (Z.gtb_spec rawBalance reserve); [reflexivity | lia].
  - intros Hnot. unfold maxUsable.
    destruct isNativeReserved; simpl; [ | reflexivity].
    destruct (Z.gtb_spec rawBalance reserve); [ | reflexivity].
    exfalso. apply Hnot. split; [reflexivity | lia].
  - apply maxUsable_nonneg. exact Hraw.
Qed.

Lemma C2_usable_amount_witness :
  exists usable : Z,
    computeMax 25000000 6 true (BABY_SUB_AMOUNT 6) = formatUnits usable 6
    /\ (true = true /\ (25000000 > BABY_SUB_AMOUNT 6)%Z ->
        usable = (25000000 - BABY_SUB_AMOUNT 6)%Z)
    /\ (~ (true = true /\ (25000000 > BABY_SUB_AMOUNT 6)%Z) -> usable = 25000000%Z)
    /\ (0 <= usable)%Z.
Proof.
  apply (C2_usable_amount 25000000 6 true (BABY_SUB_AMOUNT 6)).
  - lia.
  - vm_compute. discriminate.
Defined.

(** ** Re-applying the max computation *)

(** C3, as the specification states it, fails: for the native reserved
    asset the reserve is subtracted again.  With a balance of 45 base units
    at precision 0 (reserve 20) the first result is ["25"], the second
    ["5"]. *)
Lemma C3_not_idempotent :
  computeMax 45 0 true (BABY_SUB_AMOUNT 0) = js "25"
  /\ recomputeMax 45 0 true (BABY_SUB_AMOUNT 0) = Some (js "5")
  /\ recomputeMax 45 0 true (BABY_SUB_AMOUNT 0)
     <> Some (computeMax 45 0 true (BABY_SUB_AMOUNT 0)).
Proof.
  repeat split; try reflexivity. vm_compute. discriminate.
Qed.

(** C3, amended. For a non-negative balance and a positive reserve,
    converting the output of [computeMax] back to base units at the same
    precision and recomputing the maximum yields the first result exactly
    when the asset is not the native reserved one or the balance is at most
    twice the reserve; for the native reserved asset with a balance above
    twice the reserve the reserve is subtracted a second time: the first
    result is the text of [rawBalance - reserve], the second that of
    [rawBalance - 2 * reserve]. *)
Theorem C3_idempotent_iff (rawBalance : Z) (decimals : nat) (isNativeReserved : bool)
    (reserve : Z) :
  (0 <= rawBalance)%Z -> (0 < reserve)%Z ->
  (recomputeMax rawBalance decimals isNativeReserved reserve
   = Some (computeMax rawBalance decimals isNativeReserved reserve)
   <-> isNativeReserved = false \/ (rawBalance <= 2 * reserve)%Z)
  /\ (isNativeReserved = true -> (2 * reserve < rawBalance)%Z ->
      computeMax rawBalance decimals isNativeReserved reserve
      = formatUnits (rawBalance - reserve) decimals
      /\ recomputeMax rawBalance decimals isNativeReserved reserve
         = Some (formatUnits (rawBalance - 2 * reserve) decimals)).
Proof.
  intros Hraw Hres. unfold recomputeMax, computeMax.
  pose proof (maxUsable_nonneg isNativeReserved rawBalance reserve Hraw) as Hu.
  rewrite toBaseUnits_formatUnits by exact Hu. simpl option_map.
  split.
  - set (usable := maxUsable isNativeReserved rawBalance reserve) in *.
    assert (Hagain : maxUsable isNativeReserved usable reserve = usable
                     <-> isNativeReserved = false \/ (rawBalance <= 2 * reserve)%Z).
    { unfold usable, maxUsable. destruct isNativeReserved; cbn [andb]; [ | split; auto].
      destruct (Z.gtb_spec rawBalance reserve) as [H1 | H1].
      - destruct (Z.gtb_spec (rawBalance - reserve) reserve) as [H2 | H2]; split.
        + intros E. lia.
        + intros [E | E]; [discriminate | lia].
        + intros _. right. lia.
        + intros _. reflexivity.
      - destruct (Z.gtb_spec rawBalance reserve) as [H2 | H2]; [lia | ].
        split; [intros _; right; lia | reflexivity]. }
    rewrite <- Hagain. split.
    + intros E. injection E as E.
      apply (formatUnits_injective _ _ decimals); auto.
      apply maxUsable_nonneg. exact Hu.
    + intros ->. reflexivity.
  - intros -> Hlarge. unfold maxUsable. cbn [andb].
    destruct (Z.gtb_spec rawBalance reserve) as [_ | H]; [ | lia].
    destruct (Z.gtb_spec (rawBalance - reserve) reserve) as [_ | H]; [ | lia].
    split; [reflexivity | ].
    replace (rawBalance - reserve - reserve)%Z with (rawBalance - 2 * reserve)%Z by lia.
    reflexivity.
Qed.

Lemma C3_idempotent_iff_witness :
  (recomputeMax 45000000 6 true (BABY_SUB_AMOUNT 6)
   = Some (computeMax 45000000 6 true (BABY_SUB_AMOUNT 6))
   <-> true = false \/ (45000000 <= 2 * BABY_SUB_AMOUNT 6)%Z)
  /\ (computeMax 45000000 6 true (BABY_SUB_AMOUNT 6)
      = formatUnits (45000000 - BABY_SUB_AMOUNT 6) 6
      /\ recomputeMax 45000000 6 true (BABY_SUB_AMOUNT 6)
         = Some (formatUnits (45000000 - 2 * BABY_SUB_AMOUNT 6) 6)).
Proof.
  destruct (C3_idempotent_iff 45000000 6 true (BABY_SUB_AMOUNT 6)) as [Hiff Htwice].
  - lia.
  - reflexivity.
  - split; [exact Hiff | ].
    apply Htwice; reflexivity.
Defined.

(** ** Round trip of the conversion *)

(** C6. For every non-negative base-unit amount [u] and precision [d],
    reading the text [formatUnits u d] back at precision [d] gives [u]
    exactly. *)
Theorem C6_conversion_round_trip (u : Z) (d : nat) :
  (0 <= u)%Z -> toBaseUnits (formatUnits u d) d = Some u.
Proof.
  apply toBaseUnits_formatUnits.
Qed.

Lemma C6_conversion_round_trip_witness :
  toBaseUnits (formatUnits 1234500 6) 6 = Some 1234500%Z.
Proof.
  apply (C6_conversion_round_trip 1234500 6). lia.
Defined.

(** ** Whole amounts *)

Section WholeAmounts.

Import BigInt BigIntFacts.

Lemma natToString_times_ten (n : N) :
  (0 < n)%N -> natToString (n * 10) = natToString n ++ [ "0"%char ].
Proof.
  intros H. rewrite natToString_step by lia.
  rewrite N.div_mul, N.Div0.mod_mul by lia. reflexivity.
Qed.

Lemma natToString_five_pow10 (d : nat) :
  natToString (5 * 10 ^ N.of_nat d) = "5"%char :: repeat "0"%char d.
Proof.
  induction d as [ | d IH]; [reflexivity | ].
  rewrite pow10_succ.
  replace (5 * (10 * 10 ^ N.of_nat d))%N with (5 * 10 ^ N.of_nat d * 10)%N by lia.
  rewrite natToString_times_ten.
  - rewrite IH. cbn [repeat]. rewrite (repeat_cons d). reflexivity.
  - pose proof (N.pow_nonzero 10 (N.of_nat d)). lia.
Qed.

Lemma formatUnits_five_pow10 (d : nat) :
  formatUnits (5 * 10 ^ Z.of_nat d) d = js "5".
Proof.
  replace (5 * 10 ^ Z.of_nat d)%Z with (Z.of_N (5 * 10 ^ N.of_nat d)).
  - rewrite formatUnits_of_N, natToString_five_pow10.
    cbv zeta. unfold padStart. cbn [length]. rewrite repeat_length.
    replace (d - S d) with 0 by lia.
    cbn [repeat app length]. rewrite repeat_length.
    replace (S d - d) with 1 by lia.
    cbn [firstn skipn]. rewrite trimTrailingZeros_zeros. reflexivity.
  - rewrite N2Z.inj_mul, N2Z.inj_pow, nat_N_Z. reflexivity.
Qed.

(** At precision 0 the text is the integer itself. *)
Lemma formatUnits_zero_decimals (value : Z) :
  formatUnits value 0 = toString value.
Proof.
  assert (Hwhole : forall s, s <> [] ->
    (match slice 0 (length (padStart 0 "0"%char s) - 0) (padStart 0 "0"%char s) with
     | [] => js "0"
     | _ :: _ => slice 0 (length (padStart 0 "0"%char s) - 0) (padStart 0 "0"%char s)
     end)
    ++ (match trimTrailingZeros
                (sliceFrom (length (padStart 0 "0"%char s) - 0) (padStart 0 "0"%char s)) with
        | [] => []
        | _ :: _ =>
            js "." ++ trimTrailingZeros
              (sliceFrom (length (padStart 0 "0"%char s) - 0) (padStart 0 "0"%char s))
        end) = s).
  { intros s Hs. unfold padStart, slice, sliceFrom. cbn [Nat.sub repeat app skipn].
    rewrite !Nat.sub_0_r, firstn_all, skipn_all. cbn [trimTrailingZeros].
    rewrite app_nil_r. destruct s; [congruence | reflexivity]. }
  unfold formatUnits, toString. destruct (Z.ltb_spec value 0) as [Hneg | Hpos];
    cbv zeta.
  - assert (E : startsWith (js "-") ("-"%char :: natToString (Z.to_N (- value))) = true)
      by reflexivity.
    rewrite E. cbn [sliceFrom skipn].
    rewrite (Hwhole _ (natToString_nonempty (Z.to_N (- value)))). reflexivity.
  - rewrite startsWith_minus_digits by apply allDigits_natToString.
    rewrite (Hwhole _ (natToString_nonempty (Z.to_N value))). reflexivity.
Qed.

Lemma toString_no_separator (value : Z) : separatorCount (toString value) = 0.
Proof.
  unfold separatorCount, toString. destruct (value <? 0)%Z; cbn [filter];
    [change (isSeparator "-"%char) with false; cbv iota | ];
    rewrite allDigits_filter_separator by apply allDigits_natToString;
    reflexivity.
Qed.

End WholeAmounts.

(** C7. For every precision [d], [computeMax] with balance [25 * 10^d],
    decimals [d], the native reserved asset and reserve [20 * 10^d] returns
    exactly ["5"]; so does [setMaxAmount]'s [formattedAmount] for the
    reserved token at that precision and balance. *)
Theorem C7_reserve_subtracted (d : nat) :
  computeMax (25 * 10 ^ Z.of_nat d) d true (20 * 10 ^ Z.of_nat d) = js "5"
  /\ forall chain token,
       isUbbn chain token = true -> tokenDecimals token = d ->
       formattedAmount chain token (25 * 10 ^ Z.of_nat d) = js "5".
Proof.
  assert (Hfive : computeMax (25 * 10 ^ Z.of_nat d) d true (20 * 10 ^ Z.of_nat d)
                  = js "5").
  { unfold computeMax, maxUsable. cbn [andb].
    assert (Hpos : (0 < 10 ^ Z.of_nat d)%Z) by (apply Z.pow_pos_nonneg; lia).
    destruct (Z.gtb_spec (25 * 10 ^ Z.of_nat d) (20 * 10 ^ Z.of_nat d)) as [_ | H];
      [ | lia].
    replace (25 * 10 ^ Z.of_nat d - 20 * 10 ^ Z.of_nat d)%Z
      with (5 * 10 ^ Z.of_nat d)%Z by lia.
    apply formatUnits_five_pow10. }
  split; [exact Hfive | ].
  intros chain token Hubbn Hdec. unfold formattedAmount.
  rewrite Hubbn, Hdec. exact Hfive.
Qed.

Lemma C7_reserve_subtracted_witness :
  computeMax 25000000 6 true 20000000 = js "5"
  /\ formattedAmount babylon ubbn 25000000 = js "5".
Proof.
  destruct (C7_reserve_subtracted 6) as [Hmax Hformatted].
  split; [exact Hmax | ].
  apply (Hformatted babylon ubbn); reflexivity.
Defined.

(** ** The max-amount action without its prerequisites *)

(** C8. When no asset is selected, or there is no balance record, or the
    balance is unresolved, or there is no chain, [setMaxAmount] returns
    leaving the store, the input element and the dispatched events as they
    were. *)
Theorem C8_missing_prerequisite_noop (page : Page) :
  baseToken (transferData page) = None
  \/ baseTokenBalance (transferData page) = None
  \/ (exists record, baseTokenBalance (transferData page) = Some record
                     /\ balance record = None)
  \/ sourceChain (transferData page) = None ->
  setMaxAmount page = page.
Proof.
  unfold setMaxAmount.
  intros [H | [H | [(record & H & Hb) | H]]].
  - rewrite H. reflexivity.
  - rewrite H. destruct (baseToken (transferData page)); reflexivity.
  - rewrite H, Hb. destruct (baseToken (transferData page)); reflexivity.
  - rewrite H. destruct (baseToken (transferData page)); [ | reflexivity].
    destruct (baseTokenBalance (transferData page)) as [record | ]; [ | reflexivity].
    destruct (balance record); reflexivity.
Qed.

Lemma C8_missing_prerequisite_noop_witness :
  setMaxAmount pageWithoutBalance = pageWithoutBalance.
Proof.
  apply (C8_missing_prerequisite_noop pageWithoutBalance).
  right. left. reflexivity.
Defined.

(** ** Assets without decimals metadata *)

Lemma setMaxAmount_writes (page : Page) (chain : Chain) (token : Token)
    (record : TokenBalance) (raw : Z) :
  sourceChain (transferData page) = Some chain ->
  baseToken (transferData page) = Some token ->
  baseTokenBalance (transferData page) = Some record ->
  balance record = Some raw ->
  rawAmount (transferData (setMaxAmount page)) = formattedAmount chain token raw.
Proof.
  intros Hc Ht Hr Hb. unfold setMaxAmount. rewrite Ht, Hr, Hb, Hc.
  cbv zeta. destruct (amountInput (updateField _ page)); reflexivity.
Qed.

(** C10. When the selected asset has no first representation, or that
    representation has no [decimals], the three consumers use precision 0:
    the guard rejects (prevents) any insertion with a digit after a
    separator, the
    max-amount action writes the usable amount as a whole integer and the
    balance display shows the balance as a whole integer. *)
Theorem C10_absent_decimals (token : Token) :
  representations token = []
  \/ (exists r rest, representations token = r :: rest /\ decimals r = None) ->
  (maxDecimalsOf (Some token) = 0
   /\ forall event sep a b,
        isDelete event = false -> isSeparator sep = true ->
        proposed event = a ++ sep :: b ->
        (exists c, In c b /\ isDigit c = true) ->
        onbeforeinput (Some token) event = Some true)
  /\ (tokenDecimals token = 0
      /\ forall page chain record raw,
           sourceChain (transferData page) = Some chain ->
           baseToken (transferData page) = Some token ->
           baseTokenBalance (transferData page) = Some record ->
           balance record = Some raw ->
           rawAmount (transferData (setMaxAmount page))
           = BigInt.toString (maxUsable (isUbbn chain token) raw 20)
           /\ separatorCount (rawAmount (transferData (setMaxAmount page))) = 0)
  /\ (forall td chain record raw,
        sourceChain td = Some chain ->
        baseToken td = Some token ->
        baseTokenBalance td = Some record ->
        balance record = Some raw ->
        displayBalance td = BigInt.toString raw
        /\ separatorCount (displayBalance td) = 0).
Proof.
  intros Habsent.
  assert (Hfirst : firstDecimals token = None).
  { unfold firstDecimals.
    destruct Habsent as [-> | (r & rest & -> & Hr)]; [reflexivity | exact Hr]. }
  assert (Hdec : tokenDecimals token = 0).
  { unfold tokenDecimals. rewrite Hfirst. reflexivity. }
  assert (Hmax : maxDecimalsOf (Some token) = 0).
  { unfold maxDecimalsOf. simpl. unfold Option.fromNullable.
    rewrite Hfirst. reflexivity. }
  split; [split | split; [split | ]].
  - exact Hmax.
  - intros event sep a b Hdel Hsep Hp (c & Hin & _).
    unfold onbeforeinput. rewrite Hmax.
    rewrite (zero_precision_rejects event sep a b Hdel Hsep Hp); [reflexivity | ].
    intros ->. exact Hin.
  - exact Hdec.
  - intros page chain record raw Hc Ht Hr Hb.
    rewrite (setMaxAmount_writes page chain token record raw Hc Ht Hr Hb).
    unfold formattedAmount, computeMax. rewrite Hdec.
    change (BABY_SUB_AMOUNT 0) with 20%Z.
    rewrite formatUnits_zero_decimals.
    split; [reflexivity | apply toString_no_separator].
  - intros td chain record raw Hc Ht Hr Hb.
    unfold displayBalance. rewrite Hc, Ht, Hr, Hb, Hdec.
    rewrite formatUnits_zero_decimals.
    split; [reflexivity | apply toString_no_separator].
Qed.

Lemma C10_absent_decimals_witness :
  maxDecimalsOf (Some bareToken) = 0
  /\ onbeforeinput (Some bareToken) (typing (js "7.") (js "5")) = Some true
  /\ tokenDecimals bareToken = 0.
Proof.
  destruct (C10_absent_decimals bareToken (or_introl eq_refl))
    as ((Hmax & Hguard) & (Hdec & _) & _).
  split; [exact Hmax | split; [ | exact Hdec]].
  apply (Hguard (typing (js "7.") (js "5")) "."%char (js "7") (js "5"));
    try reflexivity.
  exists "5"%char. split; [left; reflexivity | reflexivity].
Defined.


(** * Further properties of the component *)

(** ** The guard on insertions *)

Lemma allow_insertion (maxDecimals : nat) (event : InputEvent) :
  isDelete event = false ->
  allow maxDecimals event
  = Some (validShape (proposed event)
          && precisionOk "."%char maxDecimals (proposed event)
          && precisionOk ","%char maxDecimals (proposed event)
          && noDuplicateLeadingZeroes (proposed event)).
Proof.
  intros H. rewrite allow_closed_form, H. reflexivity.
Qed.

Lemma afterFirst_app (sep : ascii) (q r fraction : JsString.t) :
  afterFirst sep q = Some fraction ->
  afterFirst sep (q ++ r) = Some (fraction ++ r).
Proof.
  induction q as [ | c q IH]; simpl; [discriminate | ].
  destruct (Ascii.eqb c sep); [ | exact IH].
  intros E. injection E as <-. reflexivity.
Qed.

Lemma precisionOk_prefix (sep : ascii) (maxDecimals : nat) (q r : JsString.t) :
  precisionOk sep maxDecimals (q ++ r) = true ->
  precisionOk sep maxDecimals q = true.
Proof.
  unfold precisionOk. destruct (afterFirst sep q) as [f | ] eqn:E; [ | reflexivity].
  rewrite (afterFirst_app sep q r f E), length_app.
  intros H. apply Nat.leb_le in H. apply Nat.leb_le. lia.
Qed.

Lemma startsWith_prefix (p q r : JsString.t) :
  startsWith p q = true -> startsWith p (q ++ r) = true.
Proof.
  revert q. induction p as [ | x p IH]; intros q H; [reflexivity | ].
  destruct q as [ | y q]; [discriminate | ].
  cbn -[Ascii.eqb] in *. apply andb_true_iff in H as [Hx Hp].
  rewrite Hx, (IH q Hp). reflexivity.
Qed.

(** X1. The accepted texts are closed under prefixes: when an insertion
    that makes the text [text ++ fragment ++ rest] is accepted, typing
    [fragment] into a field holding [text] is accepted too, at the same
    precision. *)
Theorem X1_accepted_texts_prefix_closed (maxDecimals : nat) (event : InputEvent)
    (text fragment rest : JsString.t) :
  isDelete event = false ->
  allow maxDecimals event = Some true ->
  proposed event = text ++ fragment ++ rest ->
  allow maxDecimals (typing text fragment) = Some true.
Proof.
  intros Hdel Hallow Hp.
  rewrite (allow_insertion maxDecimals event Hdel), Hp, app_assoc in Hallow.
  injection Hallow as Hallow.
  repeat (apply andb_true_iff in Hallow as [Hallow ?]).
  rewrite allow_insertion by reflexivity.
  change (proposed (typing text fragment)) with (text ++ fragment).
  f_equal. repeat (apply andb_true_iff; split).
  - apply test_Matches, (amountShape_prefix _ rest), test_Matches. exact Hallow.
  - apply (precisionOk_prefix _ _ _ rest). assumption.
  - apply (precisionOk_prefix _ _ _ rest). assumption.
  - unfold noDuplicateLeadingZeroes in *.
    destruct (startsWith (js "00") (text ++ fragment)) eqn:E; [ | reflexivity].
    rewrite (startsWith_prefix _ _ rest E) in *. discriminate.
Qed.

Lemma X1_accepted_texts_prefix_closed_witness :
  allow 2 (typing (js "12") (js ".")) = Some true.
Proof.
  apply (X1_accepted_texts_prefix_closed 2 (typing (js "12.3") (js "4"))
           (js "12") (js ".") (js "34")); reflexivity.
Defined.

Lemma precisionOk_mono (sep : ascii) (d d' : nat) (p : JsString.t) :
  d <= d' -> precisionOk sep d p = true -> precisionOk sep d' p = true.
Proof.
  unfold precisionOk. destruct (afterFirst sep p); [ | reflexivity].
  intros Hle H. apply Nat.leb_le in H. apply Nat.leb_le. lia.
Qed.

(** X2. The guard is monotone in the precision: an edit accepted at
    [maxDecimals] is accepted at every larger precision. *)
Theorem X2_accepted_at_larger_precision (maxDecimals larger : nat) (event : InputEvent) :
  maxDecimals <= larger ->
  allow maxDecimals event = Some true ->
  allow larger event = Some true.
Proof.
  intros Hle. rewrite !allow_closed_form. intros H. injection H as H. f_equal.
  destruct (isDelete event); [reflexivity | ]. cbn [orb] in *.
  repeat (apply andb_true_iff in H as [H ?]).
  repeat (apply andb_true_iff; split); auto;
    apply (precisionOk_mono _ maxDecimals larger _ Hle); assumption.
Qed.

Lemma X2_accepted_at_larger_precision_witness :
  allow 6 (typing (js "1.2") (js "3")) = Some true.
Proof.
  apply (X2_accepted_at_larger_precision 2 6 (typing (js "1.2") (js "3"))).
  - lia.
  - reflexivity.
Defined.

Lemma amountShape_characters (p : JsString.t) (c : ascii) :
  Matches amountShape p -> In c p -> isDigit c = true \/ isSeparator c = true.
Proof.
  intros H Hin. unfold allDigits in *.
  apply amountShape_words in H as [Hd | (a & s & b & -> & Ha & Hs & Hb)].
  - left. unfold allDigits in Hd. rewrite forallb_forall in Hd. auto.
  - unfold allDigits in Ha, Hb. rewrite forallb_forall in Ha, Hb.
    apply in_app_or in Hin as [Hin | [<- | Hin]]; auto.
Qed.

(** X3. Nothing but digits and the two separators can be inserted: an
    insertion whose text holds any other character is rejected, at every
    precision. *)
Theorem X3_foreign_character_rejected (maxDecimals : nat) (event : InputEvent)
    (c : ascii) :
  isDelete event = false ->
  In c (proposed event) ->
  isDigit c = false ->
  isSeparator c = false ->
  allow maxDecimals event = Some false.
Proof.
  intros Hdel Hin Hd Hs. rewrite (allow_insertion maxDecimals event Hdel).
  destruct (validShape (proposed event)) eqn:Hshape; [ | reflexivity].
  apply test_Matches in Hshape.
  destruct (amountShape_characters _ c Hshape Hin); congruence.
Qed.

Lemma X3_foreign_character_rejected_witness :
  allow 6 (typing (js "1") (js "e")) = Some false.
Proof.
  apply (X3_foreign_character_rejected 6 (typing (js "1") (js "e")) "e"%char).
  - reflexivity.
  - right. left. reflexivity.
  - reflexivity.
  - reflexivity.
Defined.

(** X4. A second separator cannot be typed: when the field already holds
    a ['.'] or a [','], an insertion that brings another one, of either
    kind, is rejected. *)
Theorem X4_second_separator_rejected (maxDecimals : nat) (event : InputEvent)
    (fragment : JsString.t) (first second : ascii) :
  isDelete event = false ->
  data event = Some fragment ->
  In first (value event) -> isSeparator first = true ->
  In second fragment -> isSeparator second = true ->
  allow maxDecimals event = Some false.
Proof.
  intros Hdel Hdata Hin1 Hs1 Hin2 Hs2.
  rewrite (allow_insertion maxDecimals event Hdel).
  destruct (validShape (proposed event)) eqn:Hshape; [ | reflexivity].
  apply test_Matches, amountShape_one_separator in Hshape.
  unfold proposed in Hshape. rewrite Hdata, separatorCount_app in Hshape.
  pose proof (separatorCount_In first _ Hin1 Hs1).
  pose proof (separatorCount_In second _ Hin2 Hs2). lia.
Qed.

Lemma X4_second_separator_rejected_witness :
  allow 6 (typing (js "1.5") (js ",")) = Some false.
Proof.
  apply (X4_second_separator_rejected 6 (typing (js "1.5") (js ","))
           (js ",") "."%char ","%char).
  - reflexivity.
  - reflexivity.
  - right. left. reflexivity.
  - reflexivity.
  - left. reflexivity.
  - reflexivity.
Defined.

(** X5. The precision bound is exact.  For an insertion whose text is an
    integer part of digits (no duplicate leading zero), one separator and a
    fractional part of digits, the guard accepts exactly when the
    fractional part has at most [maxDecimals] digits. *)
Theorem X5_fraction_length_decides (maxDecimals : nat) (event : InputEvent)
    (integer fraction : JsString.t) (sep : ascii) :
  isDelete event = false ->
  proposed event = integer ++ sep :: fraction ->
  allDigits integer = true -> isSeparator sep = true -> allDigits fraction = true ->
  startsWith (js "00") integer = false ->
  allow maxDecimals event = Some (length fraction <=? maxDecimals).
Proof.
  intros Hdel Hp Hi Hsep Hf H00.
  rewrite (allow_insertion maxDecimals event Hdel), Hp. f_equal.
  assert (Hshape : validShape (integer ++ sep :: fraction) = true).
  { apply test_Matches, amountShape_words. right. exists integer, sep, fraction. auto. }
  assert (Hzero : noDuplicateLeadingZeroes (integer ++ sep :: fraction) = true).
  { unfold noDuplicateLeadingZeroes.
    rewrite startsWith_double_zero_cut by (apply separator_not_digit; exact Hsep).
    rewrite H00. reflexivity. }
  assert (Hprec : forall sep', isSeparator sep' = true ->
            precisionOk sep' maxDecimals (integer ++ sep :: fraction)
            = if Ascii.eqb sep sep' then length fraction <=? maxDecimals else true).
  { intros sep' Hsep'. unfold precisionOk.
    pose proof (@allDigits_no_separator _ _ Hi Hsep') as Hnoi.
    pose proof (@allDigits_no_separator _ _ Hf Hsep') as Hnof.
    destruct (Ascii.eqb_spec sep sep') as [-> | Hne].
    - rewrite afterFirst_first by exact Hnoi. reflexivity.
    - rewrite afterFirst_absent; [reflexivity | ].
      intros H. apply in_app_or in H as [H | [H | H]]; auto. }
  rewrite Hshape, Hzero, !Hprec by reflexivity.
  unfold isSeparator in Hsep. apply orb_true_iff in Hsep as [E | E];
    apply Ascii.eqb_eq in E; subst sep; cbn [Ascii.eqb Bool.eqb andb];
    destruct (length fraction <=? maxDecimals); reflexivity.
Qed.

Lemma X5_fraction_length_decides_witness :
  allow 2 (typing (js "0,12") (js "3")) = Some (length (js "123") <=? 2).
Proof.
  apply (X5_fraction_length_decides 2 (typing (js "0,12") (js "3"))
           (js "0") (js "123") ","%char); reflexivity.
Defined.

(** X6. On whole numbers the precision plays no part: an insertion whose
    text is made of digits only is accepted exactly when the text does not
    start with ["00"]; a single leading zero, as in ["01"], passes. *)
Theorem X6_digits_only (maxDecimals : nat) (event : InputEvent) :
  isDelete event = false ->
  allDigits (proposed event) = true ->
  allow maxDecimals event = Some (negb (startsWith (js "00") (proposed event))).
Proof.
  intros Hdel Hd. rewrite (allow_insertion maxDecimals event Hdel). f_equal.
  assert (Hshape : validShape (proposed event) = true).
  { apply test_Matches, amountShape_words. left. exact Hd. }
  assert (Hprec : forall sep, isSeparator sep = true ->
                    precisionOk sep maxDecimals (proposed event) = true).
  { intros sep Hsep. unfold precisionOk.
    rewrite afterFirst_absent; [reflexivity | ].
    exact (@allDigits_no_separator _ _ Hd Hsep). }
  rewrite Hshape, !Hprec by reflexivity. reflexivity.
Qed.

Lemma X6_digits_only_witness :
  allow 0 (typing (js "0") (js "1"))
  = Some (negb (startsWith (js "00") (proposed (typing (js "0") (js "1"))))).
Proof.
  apply (X6_digits_only 0 (typing (js "0") (js "1"))); reflexivity.
Defined.

(** ** The maximum offered by [setMaxAmount] *)

Lemma BABY_SUB_AMOUNT_pos (decimals : nat) : (0 < BABY_SUB_AMOUNT decimals)%Z.
Proof.
  unfold BABY_SUB_AMOUNT.
  assert (0 < 10 ^ Z.of_nat decimals)%Z by (apply Z.pow_pos_nonneg; lia). lia.
Qed.

(** X7. For a positive balance the amount [setMaxAmount] computes, read
    back in base units at the token's precision, is positive and at most
    the balance: the action never offers zero and never more than is
    there, with or without the reserve. *)
Theorem X7_max_within_balance (chain : Chain) (token : Token) (raw : Z) :
  (0 < raw)%Z ->
  exists units : Z,
    toBaseUnits (formattedAmount chain token raw) (tokenDecimals token) = Some units
    /\ (0 < units <= raw)%Z.
Proof.
  intros Hraw. unfold formattedAmount, computeMax.
  set (d := tokenDecimals token).
  pose proof (BABY_SUB_AMOUNT_pos d) as Hres.
  exists (maxUsable (isUbbn chain token) raw (BABY_SUB_AMOUNT d)).
  assert (Hbounds : (0 < maxUsable (isUbbn chain token) raw (BABY_SUB_AMOUNT d) <= raw)%Z).
  { unfold maxUsable. destruct (isUbbn chain token); cbn [andb]; [ | lia].
    destruct (Z.gtb_spec raw (BABY_SUB_AMOUNT d)); lia. }
  split; [ | exact Hbounds].
  apply toBaseUnits_formatUnits. lia.
Qed.

Lemma X7_max_within_balance_witness :
  exists units : Z,
    toBaseUnits (formattedAmount babylon ubbn 20000001) (tokenDecimals ubbn) = Some units
    /\ (0 < units <= 20000001)%Z.
Proof.
  apply (X7_max_within_balance babylon ubbn 20000001). lia.
Defined.

Lemma JsString_eqb_eq (a b : JsString.t) : JsString.eqb a b = true <-> a = b.
Proof.
  revert b. induction a as [ | x a IH]; intros [ | y b]; simpl;
    try (split; [discriminate | discriminate]); [tauto | ].
  rewrite andb_true_iff, IH, Ascii.eqb_eq. split.
  - intros [-> ->]. reflexivity.
  - intros E. injection E as -> ->. auto.
Qed.

(** X8. The reserve is kept for one asset only.  Unless the chain is
    ["babylon.bbn-1"] and the token's denom is the hex text of ["ubbn"],
    [setMaxAmount] offers the whole balance, formatted at the token's
    precision. *)
Theorem X8_reserve_only_for_ubbn (chain : Chain) (token : Token) (raw : Z) :
  universal_chain_id chain <> js "babylon.bbn-1"
  \/ denom token <> js "0x7562626e" ->
  formattedAmount chain token raw = formatUnits raw (tokenDecimals token).
Proof.
  intros H. unfold formattedAmount, computeMax, maxUsable.
  assert (E : isUbbn chain token = false).
  { unfold isUbbn. apply andb_false_iff.
    destruct H as [H | H]; [left | right];
      apply not_true_iff_false; intros E; apply JsString_eqb_eq in E; auto. }
  rewrite E. reflexivity.
Qed.

Lemma X8_reserve_only_for_ubbn_witness :
  formattedAmount {| universal_chain_id := js "osmosis.osmosis-1" |} ubbn 45000000
  = formatUnits 45000000 (tokenDecimals ubbn).
Proof.
  apply (X8_reserve_only_for_ubbn {| universal_chain_id := js "osmosis.osmosis-1" |}
           ubbn 45000000).
  left. discriminate.
Defined.

(** ** [setMaxAmount] as an action on the page *)

Lemma setMaxAmount_ready (page : Page) (chain : Chain) (token : Token)
    (record : TokenBalance) (raw : Z) :
  sourceChain (transferData page) = Some chain ->
  baseToken (transferData page) = Some token ->
  baseTokenBalance (transferData page) = Some record ->
  balance record = Some raw ->
  setMaxAmount page
  = let amount := formattedAmount chain token raw in
    {| transferData := {| sourceChain := Some chain;
                          baseToken := Some token;
                          baseTokenBalance := Some record;
                          rawAmount := amount |};
       amountInput := match amountInput page with
                      | Some _ => Some amount
                      | None => None
                      end;
       dispatched := match amountInput page with
                     | Some _ => dispatched page ++ [js "input"]
                     | None => dispatched page
                     end |}.
Proof.
  intros Hc Ht Hr Hb. unfold setMaxAmount. rewrite Ht, Hr, Hb, Hc. cbv zeta.
  unfold writeAndDispatch, updateField. cbn [transferData amountInput dispatched].
  rewrite Ht, Hr, Hc.
  destruct (amountInput page); cbn [sourceChain baseToken baseTokenBalance];
    reflexivity.
Qed.

Lemma allDataReadyForBalance_true (td : TransferData) :
  allDataReadyForBalance td = true <->
  exists chain token record raw,
    sourceChain td = Some chain /\ baseToken td = Some token
    /\ baseTokenBalance td = Some record /\ balance record = Some raw.
Proof.
  unfold allDataReadyForBalance. split.
  - destruct (sourceChain td) as [chain | ]; [ | discriminate].
    destruct (baseToken td) as [token | ]; [ | discriminate].
    destruct (baseTokenBalance td) as [record | ]; [ | discriminate].
    destruct (balance record) as [raw | ] eqn:E; [ | discriminate].
    intros _. exists chain, token, record, raw. auto.
  - intros (chain & token & record & raw & -> & -> & -> & ->). reflexivity.
Qed.

(** X9. Pressing MAX again changes nothing but the log of dispatched
    events: the store and the input element after two runs of
    [setMaxAmount] are those after one, since the amount is computed from
    the fetched balance and not from the field. *)
Theorem X9_max_twice (page : Page) :
  transferData (setMaxAmount (setMaxAmount page)) = transferData (setMaxAmount page)
  /\ amountInput (setMaxAmount (setMaxAmount page)) = amountInput (setMaxAmount page).
Proof.
  destruct (allDataReadyForBalance (transferData page)) eqn:Hready.
  - apply allDataReadyForBalance_true in Hready
      as (chain & token & record & raw & Hc & Ht & Hr & Hb).
    rewrite (setMaxAmount_ready page chain token record raw Hc Ht Hr Hb). cbv zeta.
    match goal with
    | |- context [setMaxAmount ?p] =>
        rewrite (setMaxAmount_ready p chain token record raw eq_refl eq_refl eq_refl Hb)
    end.
    cbn [amountInput transferData]. destruct (amountInput page); split; reflexivity.
  - assert (E : setMaxAmount page = page).
    { unfold setMaxAmount, allDataReadyForBalance in *.
      destruct (baseToken (transferData page)); [ | reflexivity].
      destruct (baseTokenBalance (transferData page)) as [record | ]; [ | reflexivity].
      destruct (balance record); [ | reflexivity].
      destruct (sourceChain (transferData page)); [discriminate | reflexivity]. }
    rewrite !E. split; reflexivity.
Qed.

(** X10. When [setMaxAmount] acts, the input element and the store end up
    with the same text: whatever the element shows afterwards is the
    amount of the store, and exactly one more [input] event has been
    dispatched on it. *)
Theorem X10_element_and_store_agree (page : Page) (shown : JsString.t) :
  allDataReadyForBalance (transferData page) = true ->
  amountInput (setMaxAmount page) = Some shown ->
  shown = rawAmount (transferData (setMaxAmount page))
  /\ dispatched (setMaxAmount page) = dispatched page ++ [js "input"].
Proof.
  intros Hready. apply allDataReadyForBalance_true in Hready
    as (chain & token & record & raw & Hc & Ht & Hr & Hb).
  rewrite (setMaxAmount_ready page chain token record raw Hc Ht Hr Hb). cbv zeta.
  cbn [amountInput transferData rawAmount dispatched].
  destruct (amountInput page); [ | discriminate].
  intros E. injection E as <-. split; reflexivity.
Qed.

Lemma X10_element_and_store_agree_witness :
  js "25" = rawAmount (transferData (setMaxAmount
              (readyPage babylon ubbn 45000000 (js "1.5") (Some (js "1.5")))))
  /\ dispatched (setMaxAmount (readyPage babylon ubbn 45000000 (js "1.5") (Some (js "1.5"))))
     = dispatched (readyPage babylon ubbn 45000000 (js "1.5") (Some (js "1.5")))
       ++ [js "input"].
Proof.
  apply (X10_element_and_store_agree
           (readyPage babylon ubbn 45000000 (js "1.5") (Some (js "1.5"))) (js "25"));
    reflexivity.
Defined.

(** ** What the formatted amounts look like *)

Section FormattedAmounts.

Import BigInt BigIntFacts.

Lemma digitChar_nonzero (d : N) :
  (0 < d < 10)%N -> digitChar d <> "0"%char.
Proof.
  intros H E. assert (Hv : digitValue (digitChar d) = 0%N) by (rewrite E; reflexivity).
  rewrite digitValue_digitChar in Hv by lia. lia.
Qed.

(** The decimal text of a positive number does not start with a zero. *)
Lemma natToString_leading (n : N) :
  (0 < n)%N -> exists c rest, natToString n = c :: rest /\ c <> "0"%char.
Proof.
  induction n as [n H | n H IH] using decimal_ind; intros Hpos.
  - rewrite natToString_small by exact H.
    exists (digitChar n), []. split; [reflexivity | ].
    apply digitChar_nonzero. lia.
  - destruct IH as (c & rest & E & Hc).
    { apply N.div_str_pos. lia. }
    rewrite natToString_step, E by exact H.
    exists c, (rest ++ [digitChar (n mod 10)]). auto.
Qed.

Lemma integer_part_no_double_zero (n : N) (decimals : nat) :
  let display := padStart decimals "0"%char (natToString n) in
  startsWith (js "00")
    (match firstn (length display - decimals) display with
     | [] => js "0"
     | _ :: _ => firstn (length display - decimals) display
     end) = false.
Proof.
  cbv zeta. unfold padStart.
  destruct (Nat.le_gt_cases decimals (length (natToString n))) as [Hle | Hgt].
  - replace (decimals - length (natToString n)) with 0 by lia. cbn [repeat app].
    destruct (N.eq_0_gt_0_cases n) as [-> | Hpos].
    + change (natToString 0) with (js "0") in *.
      destruct decimals as [ | [ | d]]; [reflexivity | reflexivity | simpl in Hle; lia].
    + destruct (natToString_leading n Hpos) as (c & rest & -> & Hc).
      destruct (length (c :: rest) - decimals) as [ | k]; [reflexivity | ].
      cbn -[Ascii.eqb].
      destruct (Ascii.eqb_spec "0"%char c) as [<- | _]; [congruence | reflexivity].
  - rewrite length_app, repeat_length.
    replace (decimals - length (natToString n) + length (natToString n) - decimals)
      with 0 by lia.
    reflexivity.
Qed.

Lemma formatUnits_nonempty (value : Z) (decimals : nat) :
  formatUnits value decimals <> [].
Proof.
  unfold formatUnits. cbv zeta. intros E.
  apply app_eq_nil in E as [_ E]. apply app_eq_nil in E as [E _].
  destruct (slice _ _ _); discriminate.
Qed.

(** The text of a non-negative value passes every rule of the guard. *)
Lemma formatUnits_passes_guard (value : Z) (decimals : nat) :
  (0 <= value)%Z ->
  allow decimals (typing [] (formatUnits value decimals)) = Some true.
Proof.
  intros Hv. rewrite <- (Z2N.id value Hv). set (n := Z.to_N value).
  rewrite allow_insertion by reflexivity.
  change (proposed (typing [] (formatUnits (Z.of_N n) decimals)))
    with (formatUnits (Z.of_N n) decimals).
  rewrite formatUnits_of_N.
  destruct (padStart_digits n decimals) as (Hdigits & _ & Hlen).
  pose proof (integer_part_no_double_zero n decimals) as Hzero.
  set (display := padStart decimals "0"%char (natToString n)) in *.
  cbv zeta in *.
  set (k := (length display - decimals)%nat) in *.
  pose proof (firstn_skipn k display) as Hcut.
  set (integer := firstn k display) in *.
  set (fraction := skipn k display) in *.
  assert (Hflen : length fraction = decimals).
  { unfold fraction. rewrite length_skipn. unfold k. lia. }
  assert (Hi : allDigits integer = true /\ allDigits fraction = true).
  { rewrite <- Hcut in Hdigits. unfold allDigits in *.
    rewrite forallb_app in Hdigits. apply andb_true_iff. exact Hdigits. }
  destruct Hi as [Hi Hf].
  pose proof (trimTrailingZeros_digits fraction Hf) as Htd.
  pose proof (trimTrailingZeros_length fraction) as Htl.
  rewrite Hflen in Htl.
  set (trimmed := trimTrailingZeros fraction) in *.
  set (shown := match integer with [] => _ | _ :: _ => _ end) in *.
  assert (Hsd : allDigits shown = true) by (unfold shown; destruct integer; auto).
  f_equal. destruct trimmed as [ | x r].
  - rewrite app_nil_r.
    assert (Hshape : validShape shown = true).
    { apply test_Matches, amountShape_words. left. exact Hsd. }
    assert (Hprec : forall sep, isSeparator sep = true ->
                      precisionOk sep decimals shown = true).
    { intros sep Hsep. unfold precisionOk.
      rewrite afterFirst_absent; [reflexivity | ].
      exact (@allDigits_no_separator _ _ Hsd Hsep). }
    unfold noDuplicateLeadingZeroes.
    rewrite Hshape, !Hprec, Hzero by reflexivity. reflexivity.
  - change (js "." ++ x :: r) with ("."%char :: x :: r).
    assert (Hshape : validShape (shown ++ "."%char :: x :: r) = true).
    { apply test_Matches, amountShape_words. right.
      exists shown, "."%char, (x :: r). auto. }
    assert (Hdot : precisionOk "."%char decimals (shown ++ "."%char :: x :: r) = true).
    { unfold precisionOk. rewrite afterFirst_first.
      - apply Nat.leb_le. exact Htl.
      - exact (@allDigits_no_separator _ "."%char Hsd eq_refl). }
    assert (Hcomma : precisionOk ","%char decimals (shown ++ "."%char :: x :: r) = true).
    { unfold precisionOk. rewrite afterFirst_absent; [reflexivity | ].
      intros H. apply in_app_or in H as [H | [H | H]].
      - exact (@allDigits_no_separator _ ","%char Hsd eq_refl H).
      - discriminate H.
      - exact (@allDigits_no_separator _ ","%char Htd eq_refl H). }
    unfold noDuplicateLeadingZeroes.
    rewrite Hshape, Hdot, Hcomma, startsWith_double_zero_cut, Hzero by reflexivity.
    reflexivity.
Qed.

End FormattedAmounts.

Lemma maxDecimalsOf_tokenDecimals (token : Token) :
  maxDecimalsOf (Some token) = tokenDecimals token.
Proof.
  unfold maxDecimalsOf, tokenDecimals. simpl. unfold Option.fromNullable.
  destruct (firstDecimals token); reflexivity.
Qed.

(** X11. The text [setMaxAmount] writes for a non-negative balance is one
    the guard lets through: typed into the empty field of the same token,
    it is not prevented.  It has the shape of an amount, at most the
    token's number of decimals and no duplicate leading zero. *)
Theorem X11_max_passes_guard (chain : Chain) (token : Token) (raw : Z) :
  (0 <= raw)%Z ->
  onbeforeinput (Some token) (typing [] (formattedAmount chain token raw)) = Some false
  /\ wellFormedAmount (tokenDecimals token) (formattedAmount chain token raw).
Proof.
  intros Hraw. unfold onbeforeinput. rewrite maxDecimalsOf_tokenDecimals.
  assert (Hallow : allow (tokenDecimals token)
                     (typing [] (formattedAmount chain token raw)) = Some true).
  { unfold formattedAmount, computeMax. apply formatUnits_passes_guard.
    apply maxUsable_nonneg. exact Hraw. }
  split; [rewrite Hallow; reflexivity | ].
  apply allow_iff_specAccepts in Hallow.
  destruct Hallow as [H | (H1 & H2 & H3 & H4)]; [discriminate H | ].
  unfold wellFormedAmount. auto using amountShape_one_separator.
Qed.

Lemma X11_max_passes_guard_witness :
  onbeforeinput (Some ubbn) (typing [] (formattedAmount babylon ubbn 45123400)) = Some false
  /\ wellFormedAmount (tokenDecimals ubbn) (formattedAmount babylon ubbn 45123400).
Proof.
  apply (X11_max_passes_guard babylon ubbn 45123400). lia.
Defined.

(** ** The balance label *)

(** X12. [displayBalance] falls back to the empty text exactly when
    [allDataReadyForBalance] is false, so the label, which shows
    [displayBalance] only when the data is ready, never shows an empty
    balance; what it shows is the fetched balance formatted at the token's
    precision. *)
Theorem X12_label_never_empty (rawSource rawAsset : bool) (td : TransferData) :
  (allDataReadyForBalance td = true <-> displayBalance td <> [])
  /\ balanceLabel rawSource rawAsset td <> ShowsBalance []
  /\ forall text,
       balanceLabel rawSource rawAsset td = ShowsBalance text ->
       exists chain token record raw,
         sourceChain td = Some chain /\ baseToken td = Some token
         /\ baseTokenBalance td = Some record /\ balance record = Some raw
         /\ text = formatUnits raw (tokenDecimals token).
Proof.
  assert (Hiff : allDataReadyForBalance td = true <-> displayBalance td <> []).
  { unfold allDataReadyForBalance, displayBalance.
    destruct (sourceChain td); [ | split; [discriminate | congruence]].
    destruct (baseToken td); [ | split; [discriminate | congruence]].
    destruct (baseTokenBalance td) as [record | ]; [ | split; [discriminate | congruence]].
    destruct (balance record); [ | split; [discriminate | congruence]].
    split; [intros _; apply formatUnits_nonempty | reflexivity]. }
  assert (Hshows : forall text,
            balanceLabel rawSource rawAsset td = ShowsBalance text ->
            allDataReadyForBalance td = true /\ text = displayBalance td).
  { unfold balanceLabel. intros text.
    destruct (negb rawSource || negb rawAsset); [discriminate | ].
    destruct (allDataReadyForBalance td); [ | discriminate].
    intros E. injection E as <-. auto. }
  split; [exact Hiff | split].
  - intros E. apply Hshows in E as [Hready E].
    apply Hiff in Hready. congruence.
  - intros text E. apply Hshows in E as [Hready ->].
    apply allDataReadyForBalance_true in Hready
      as (chain & token & record & raw & Hc & Ht & Hr & Hb).
    exists chain, token, record, raw. repeat split; auto.
    unfold displayBalance. rewrite Hc, Ht, Hr, Hb. reflexivity.
Qed.

(** X13. For every asset but the reserved one, MAX fills in exactly the
    balance the label shows: when the data is ready and the token is not
    ubbn on babylon, the amount [setMaxAmount] writes is [displayBalance]. *)
Theorem X13_max_is_displayed_balance (page : Page) (chain : Chain) (token : Token) :
  allDataReadyForBalance (transferData page) = true ->
  sourceChain (transferData page) = Some chain ->
  baseToken (transferData page) = Some token ->
  isUbbn chain token = false ->
  rawAmount (transferData (setMaxAmount page)) = displayBalance (transferData page).
Proof.
  intros Hready Hc Ht Hubbn.
  apply allDataReadyForBalance_true in Hready
    as (chain' & token' & record & raw & Hc' & Ht' & Hr & Hb).
  rewrite Hc in Hc'. rewrite Ht in Ht'. injection Hc' as <-. injection Ht' as <-.
  rewrite (setMaxAmount_writes page chain token record raw Hc Ht Hr Hb).
  unfold displayBalance, formattedAmount, computeMax, maxUsable.
  rewrite Hc, Ht, Hr, Hb, Hubbn. reflexivity.
Qed.

Lemma X13_max_is_displayed_balance_witness :
  rawAmount (transferData (setMaxAmount
    (readyPage {| universal_chain_id := js "osmosis.osmosis-1" |} ubbn 45000000
       (js "1.5") None)))
  = displayBalance (transferData
      (readyPage {| universal_chain_id := js "osmosis.osmosis-1" |} ubbn 45000000
         (js "1.5") None)).
Proof.
  apply (X13_max_is_displayed_balance
           (readyPage {| universal_chain_id := js "osmosis.osmosis-1" |} ubbn 45000000
              (js "1.5") None)
           {| universal_chain_id := js "osmosis.osmosis-1" |} ubbn);
    reflexivity.
Defined.
